(** * IEC 62304 auditor: the local utilities of [IEC62304_autogen.py]

    A shallow embedding of the file-discovery, text-extraction,
    whitespace-normalisation, context-budgeting and command-loop code of
    [src/IEC62304_autogen.py], with the properties the specification
    states about them.

    Conventions.
    - A Python [str] is a sequence of Unicode code points: [str := list N].
      Literals of the source are written with [lit "..."].
    - A Python [int] is a [Z]; [len] is [length] and is injected with
      [Z.of_nat] where the source compares it with an [int].
    - Calls into [pypdf], [python-docx], [openpyxl], [glob] and the file
      system are inputs of the model: what they return (or the exception
      they raise) is a value the functions receive.
    - [str.lower] (a Unicode table) is a parameter of the command loop. *)

From Stdlib Require Import List ZArith NArith Lia Bool Arith.
From Stdlib Require Import Permutation.
From Stdlib Require Ascii String.
Import ListNotations.
Import String.StringSyntax.

Set Implicit Arguments.

(** ** Strings *)

Definition char := N.
Definition str := list char.

Definition lit (s : String.string) : str :=
  map Ascii.N_of_ascii (String.list_ascii_of_string s).
Arguments lit s%_string_scope.

Definition len (s : str) : Z := Z.of_nat (length s).

Definition SPACE : char := 32%N.
Definition TAB : char := 9%N.
Definition LF : char := 10%N.
Definition CR : char := 13%N.

Definition str_eqb (a b : str) : bool :=
  if list_eq_dec N.eq_dec a b then true else false.

(** [s[:n]] for a Python [int] [n]: the first [n] characters when
    [n >= 0], all but the last [-n] when [n < 0]. *)
Definition slice_to (n : Z) (s : str) : str :=
  if (0 <=? n)%Z then firstn (Z.to_nat n) s
  else firstn (length s - Z.to_nat (- n)) s.

(** [sep.join(parts)] *)
Fixpoint join (sep : str) (parts : list str) : str :=
  match parts with
  | [] => []
  | [p] => p
  | p :: rest => p ++ sep ++ join sep rest
  end.

(** [sum(len(t) for t in texts)] *)
Definition sum_len (texts : list str) : Z :=
  fold_right (fun t acc => (len t + acc)%Z) 0%Z texts.

(** Decimal rendering of a non-negative [int], as [str(n)] and the
    f-string [{n}] produce it. *)
Definition digit (d : nat) : char := (48 + N.of_nat d)%N.

Fixpoint digits_fuel (fuel n : nat) (acc : str) : str :=
  match fuel with
  | O => acc
  | S f =>
      let acc' := digit (n mod 10) :: acc in
      if n / 10 =? 0 then acc' else digits_fuel f (n / 10) acc'
  end.

Definition str_of_nat (n : nat) : str := digits_fuel (S n) n [].

(** Characters removed by [str.strip()] and separating the fields of
    [str.split()]: CPython's [_PyUnicode_IsWhitespace]. *)
Definition is_space (c : char) : bool :=
  ((9 <=? c) && (c <=? 13) || (28 <=? c) && (c <=? 32)
   || (c =? 133) || (c =? 160) || (c =? 5760)
   || (8192 <=? c) && (c <=? 8202)
   || (c =? 8232) || (c =? 8233) || (c =? 8239) || (c =? 8287)
   || (c =? 12288))%N.

Fixpoint drop_while (P : char -> bool) (s : str) : str :=
  match s with
  | [] => []
  | c :: t => if P c then drop_while P t else s
  end.

Fixpoint take_while (P : char -> bool) (s : str) : str :=
  match s with
  | [] => []
  | c :: t => if P c then c :: take_while P t else []
  end.

Definition lstrip (s : str) : str := drop_while is_space s.
Definition rstrip (s : str) : str := rev (drop_while is_space (rev s)).

(** [s.strip()] *)
Definition strip (s : str) : str := rstrip (lstrip s).

(** [s.split()]: the maximal runs of non-whitespace characters. *)
Fixpoint split_from (cur : str) (s : str) : list str :=
  match s with
  | [] => match cur with [] => [] | _ => [rev cur] end
  | c :: t =>
      if is_space c
      then match cur with
           | [] => split_from [] t
           | _ => rev cur :: split_from [] t
           end
      else split_from (c :: cur) t
  end.

Definition split (s : str) : list str := split_from [] s.

(** ** Regular expressions of [clean_text]

    The two patterns of [clean_text], [[ \t]+] and [\r?\n+], are
    sequences of character sets, each taken once, optionally ([?]) or
    one or more times ([+]).  [match_at] is the backtracking matcher of
    [re] for such patterns, anchored at the head of the string: greedy
    quantifiers, giving back a character when the rest of the pattern
    fails.  It returns the length of the match. *)

Inductive quant := Once | Opt | Plus.

Definition item := ((char -> bool) * quant)%type.
Definition pattern := list item.

(** The repetitions of [cs+] after its first character: as many more as
    possible, one fewer whenever the continuation [k] (the rest of the
    pattern) fails. *)
Fixpoint plus_more (cs : char -> bool) (k : str -> option nat) (t : str)
    : option nat :=
  match t with
  | c :: t' =>
      if cs c
      then match plus_more cs k t' with
           | Some n => Some (S n)
           | None => k t
           end
      else k t
  | [] => k t
  end.

Fixpoint match_at (pat : pattern) (s : str) : option nat :=
  match pat with
  | [] => Some O
  | (cs, q) :: rest =>
      match q with
      | Once =>
          match s with
          | c :: t => if cs c then option_map S (match_at rest t) else None
          | [] => None
          end
      | Opt =>
          match s with
          | c :: t =>
              if cs c
              then match match_at rest t with
                   | Some n => Some (S n)
                   | None => match_at rest s
                   end
              else match_at rest s
          | [] => match_at rest s
          end
      | Plus =>
          match s with
          | c :: t =>
              if cs c then option_map S (plus_more cs (match_at rest) t)
              else None
          | [] => None
          end
      end
  end.

(** [re.sub(pat, repl, s)] with a constant replacement: scan from the
    left; where the pattern matches, emit [repl] and resume after the
    match; elsewhere copy the character.  [skip] counts the characters
    of the current match still to be passed over.  An empty match emits
    [repl] and copies the character (Python 3.7 and later). *)
Fixpoint re_sub_from (pat : pattern) (repl : str) (skip : nat) (s : str) : str :=
  match s with
  | [] =>
      match skip, match_at pat [] with
      | O, Some _ => repl
      | _, _ => []
      end
  | c :: t =>
      match skip with
      | S k => re_sub_from pat repl k t
      | O =>
          match match_at pat s with
          | Some (S k) =>
              repl ++ re_sub_from pat repl k t
          | Some O => repl ++ c :: re_sub_from pat repl O t
          | None => c :: re_sub_from pat repl O t
          end
      end
  end.

Definition re_sub (pat : pattern) (repl : str) (s : str) : str :=
  re_sub_from pat repl O s.

Definition is_blank (c : char) : bool := ((c =? SPACE) || (c =? TAB))%N.
Definition is_cr (c : char) : bool := (c =? CR)%N.
Definition is_lf (c : char) : bool := (c =? LF)%N.

(** [[ \t]+] *)
Definition pat_blanks : pattern := [(is_blank, Plus)].
(** [\r?\n+] *)
Definition pat_newlines : pattern := [(is_cr, Opt); (is_lf, Plus)].

(** [clean_text]:
    [re.sub(r"\r?\n+", "\n", re.sub(r"[ \t]+", " ", text)).strip()] *)
Definition clean_text (text : str) : str :=
  strip (re_sub pat_newlines [LF] (re_sub pat_blanks [SPACE] text)).

(** ** Exceptions

    A call that may raise returns a [result]; [Raise e] carries [str(e)]
    of an exception of class [Exception], the class the [except] clauses
    of the readers name. *)

Inductive result (A : Type) : Type :=
| Ok (a : A)
| Raise (e : str).
Arguments Ok {A} a.
Arguments Raise {A} e.

Definition bind {A B : Type} (r : result A) (k : A -> result B) : result B :=
  match r with
  | Ok a => k a
  | Raise e => Raise e
  end.

Notation "x <- r ;; k" := (bind r (fun x => k))
  (at level 61, r at next level, right associativity).

(** [try: body  except Exception as e: handler(e)] *)
Definition try_except {A : Type} (body : result A)
    (handler : str -> result A) : result A :=
  match body with
  | Ok a => Ok a
  | Raise e => handler e
  end.

(** ** Paths

    A [Path] is the text of a resolved POSIX path; two paths are equal
    when their texts are. *)

Definition Path := str.

Definition SLASH : char := 47%N.
Definition DOT : char := 46%N.

(** [s.rfind(c)], [None] for [-1]. *)
Fixpoint rfind (c : char) (s : str) : option nat :=
  match s with
  | [] => None
  | x :: t =>
      match rfind c t with
      | Some i => Some (S i)
      | None => if (x =? c)%N then Some O else None
      end
  end.

(** [p.name]: the final component. *)
Definition name (p : Path) : str :=
  match rfind SLASH p with
  | Some i => skipn (S i) p
  | None => p
  end.

(** [p.suffix]: [name[i:]] for [i = name.rfind('.')] when
    [0 < i < len(name) - 1], else the empty string. *)
Definition suffix (p : Path) : str :=
  let nm := name p in
  match rfind DOT nm with
  | Some i => if (0 <? i) && (i <? length nm - 1) then skipn i nm else []
  | None => []
  end.

(** ** The optional parsing libraries

    [pypdf]: [PdfReader(str(path)).pages] is a list of pages whose
    [extract_text()] returns a string or [None], or raises.
    [python-docx]: [docx.Document(str(path)).paragraphs], each with its
    [text].  [openpyxl]: [load_workbook(...).worksheets], each with a
    [title] and the rows [iter_rows] yields, a row being a list of cells;
    a cell value is seen through its truth value and its [str()].
    A library that failed to import is [None]. *)

Record page := { extract_text : result (option str) }.

Record cell := { value_truthy : bool; value_str : str }.

Record worksheet := {
  ws_title : str;
  ws_rows : list (result (list cell))
}.

(** [ws.iter_rows(min_row=1, max_row=n)] *)
Definition iter_rows (ws : worksheet) (max_row : nat) : list (result (list cell)) :=
  firstn max_row (ws_rows ws).

Record libs := {
  PdfReader : option (Path -> result (list page));
  docx : option (Path -> result (list str));
  openpyxl : option (Path -> result (list worksheet))
}.

(** ** Extraction *)

(** The loop of [read_pdf] over [enumerate(reader.pages[:10])], from
    index [i] with [texts] collected so far. *)
Fixpoint pdf_pages (max_chars : Z) (i : nat) (pages : list page)
    (texts : list str) : result (list str) :=
  match pages with
  | [] => Ok texts
  | pg :: rest =>
      x <- extract_text pg ;;
      let txt := strip (match x with Some t => t | None => [] end) in
      match txt with
      | [] => pdf_pages max_chars (S i) rest texts
      | _ =>
          let texts' :=
            texts ++ [lit "[p" ++ str_of_nat (i + 1) ++ lit "] " ++ txt] in
          if (sum_len texts' >? max_chars)%Z then Ok texts'
          else pdf_pages max_chars (S i) rest texts'
      end
  end.

Definition read_pdf_body (reader : Path -> result (list page)) (path : Path)
    (max_chars : Z) : result str :=
  pages <- reader path ;;
  texts <- pdf_pages max_chars O (firstn 10 pages) [] ;;
  Ok (slice_to max_chars (clean_text (join [LF] texts))).

Definition read_pdf (L : libs) (path : Path) (max_chars : Z) : result str :=
  match PdfReader L with
  | None => Ok (lit "(Install pypdf)")
  | Some reader =>
      try_except (read_pdf_body reader path max_chars)
        (fun e => Ok (lit "(PDF error: " ++ e ++ lit ")"))
  end.

Definition read_docx_body (document : Path -> result (list str)) (path : Path)
    (max_chars : Z) : result str :=
  paragraphs <- document path ;;
  let paras :=
    map strip (filter (fun t => match strip t with [] => false | _ => true end)
                 paragraphs) in
  Ok (slice_to max_chars (clean_text (join [LF] paras))).

Definition read_docx (L : libs) (path : Path) (max_chars : Z) : result str :=
  match docx L with
  | None => Ok (lit "(Install python-docx)")
  | Some document =>
      try_except (read_docx_body document path max_chars)
        (fun e => Ok (lit "(DOCX error: " ++ e ++ lit ")"))
  end.

(** [str(cell.value) if cell.value else ""] *)
Definition cell_text (c : cell) : str :=
  if value_truthy c then value_str c else [].

(** The inner loop of [read_xlsx] over the rows of one sheet. *)
Fixpoint xlsx_rows (max_chars : Z) (rs : list (result (list cell)))
    (rows : list str) : result (list str) :=
  match rs with
  | [] => Ok rows
  | r :: rest =>
      row <- r ;;
      let rows' := rows ++ [join (lit ", ") (map cell_text row)] in
      if (sum_len rows' >? max_chars / 2)%Z then Ok rows'
      else xlsx_rows max_chars rest rows'
  end.

(** The outer loop of [read_xlsx] over [wb.worksheets[:3]]. *)
Fixpoint xlsx_sheets (max_chars : Z) (wss : list worksheet)
    (parts : list str) : result (list str) :=
  match wss with
  | [] => Ok parts
  | ws :: rest =>
      rows <- xlsx_rows max_chars (iter_rows ws 20) [] ;;
      match rows with
      | [] => xlsx_sheets max_chars rest parts
      | _ =>
          let parts' :=
            parts ++ [lit "[" ++ ws_title ws ++ lit "] " ++ join (lit " | ") rows] in
          if (sum_len parts' >? max_chars)%Z then Ok parts'
          else xlsx_sheets max_chars rest parts'
      end
  end.

Definition read_xlsx_body (load_workbook : Path -> result (list worksheet))
    (path : Path) (max_chars : Z) : result str :=
  worksheets <- load_workbook path ;;
  parts <- xlsx_sheets max_chars (firstn 3 worksheets) [] ;;
  Ok (slice_to max_chars (clean_text (join [LF] parts))).

Definition read_xlsx (L : libs) (path : Path) (max_chars : Z) : result str :=
  match openpyxl L with
  | None => Ok (lit "(Install openpyxl)")
  | Some load_workbook =>
      try_except (read_xlsx_body load_workbook path max_chars)
        (fun e => Ok (lit "(XLSX error: " ++ e ++ lit ")"))
  end.

(** ** Evidence and context *)

Record EvidenceItem := {
  path : Path;
  kind : str;
  title : str;
  excerpt : str
}.

Definition HEADER : str := lit "Evidence:".

(** The [for it in items] loop of [build_context]; [lines] and
    [filenames] are the lists built so far. *)
Fixpoint context_loop (items : list EvidenceItem) (remaining : Z)
    (lines filenames : list str) : list str * list str :=
  match items with
  | [] => (lines, filenames)
  | it :: rest =>
      if (remaining <=? 0)%Z then (lines, filenames)
      else
        let chunk :=
          [LF] ++ lit "## " ++ title it ++ lit " (" ++ kind it ++ lit ")"
          ++ [LF] ++ excerpt it ++ [LF] in
        let chunk :=
          if (len chunk >? remaining)%Z then slice_to remaining chunk
          else chunk in
        context_loop rest (remaining - len chunk)
          (lines ++ [chunk]) (filenames ++ [title it])
  end.

Definition build_context (items : list EvidenceItem) (max_chars : Z)
    : str * list str :=
  let lines := [HEADER] in
  let remaining := (max_chars - len HEADER)%Z in
  let '(lines, filenames) := context_loop items remaining lines [] in
  (join [] lines, filenames).

(** ** File discovery *)

Record FS := {
  glob : str -> list str;          (* glob.glob(pat) *)
  resolve : str -> Path;           (* Path(p).expanduser().resolve() *)
  path_exists : Path -> bool;      (* path.exists() *)
  path_is_file : Path -> bool      (* path.is_file() *)
}.

Definition mem (p : Path) (l : list Path) : bool := existsb (str_eqb p) l.

(** [list(dict.fromkeys(paths))]: keys in insertion order, a key already
    present keeps its place. *)
Definition fromkeys (paths : list Path) : list Path :=
  fold_left (fun d k => if mem k d then d else d ++ [k]) paths [].

(** The list [paths] of [discover_paths] before deduplication. *)
Definition globbed (fs : FS) (patterns : list str) : list Path :=
  flat_map
    (fun pat =>
       filter (fun p => path_exists fs p && path_is_file fs p)
         (map (resolve fs) (glob fs pat)))
    patterns.

Definition discover_paths (fs : FS) (patterns : list str) : list Path :=
  fromkeys (globbed fs patterns).

(** ** The command loop *)

(** What the session writes: [print(s)], the prompt of [input], and the
    hand-over of the task to the remote team ([team.run] and the
    printing of what it returns, which this repository does not
    compute). *)
Inductive output :=
| Print (s : str)
| Prompt (s : str)
| TeamRun (context : str) (filenames : list str).

(** What [input("iec62304> ")] does: return a line (read while the file
    system is [fs]), or raise [EOFError] or [KeyboardInterrupt].

    An [FS] is a file system on which the calls of [discover_paths]
    return, and [TeamRun] is a call of [team.run] that returns.
    [Raising fs raw e] is a line [raw] for which the call the body makes
    raises the exception [e] instead: [Path(p).expanduser().resolve()]
    inside [discover_paths] for an [add] with arguments, [team.run] for
    a [run] with evidence.  [e] is an exception other than [EOFError]
    and [KeyboardInterrupt], so the handler of the loop does not catch
    it and it leaves [main]. *)
Inductive input_event :=
| Line (fs : FS) (raw : str)
| EOFError
| KeyboardInterrupt
| Raising (fs : FS) (raw : str) (e : str).

(** How one pass through the body of [while True] ends. *)
Inductive control :=
| Continue
| Break
| Uncaught (e : str).

(** How the process ends. *)
Inductive outcome :=
| SysExit (code : Z) (out : list output)
| Crashed (e : str) (out : list output)
| Returned (queue : list Path) (out : list output).

Definition environ := list (str * str).

(** [key in os.environ] and [os.environ.get(key)] *)
Definition env_get (key : str) (env : environ) : option str :=
  match find (fun kv => str_eqb key (fst kv)) env with
  | Some kv => Some (snd kv)
  | None => None
  end.

Definition env_has (key : str) (env : environ) : bool :=
  match env_get key env with Some _ => true | None => false end.

Section Session.

(** [str.lower] *)
Variable lower : str -> str.
(** [load_dotenv()], acting on [os.environ] *)
Variable load_dotenv : environ -> environ.
(** the parsing libraries found at import time *)
Variable L : libs.
(** The model client and the team, objects of the agent framework, and
    their constructors, each of which may raise:
    [AnthropicChatCompletionClient(model=..., api_key=...)], and the
    agents and group chats that [build_team] assembles around the
    client. *)
Variable client : Type.
Variable team : Type.
Variable AnthropicChatCompletionClient : str -> str -> result client.
Variable assemble_team : client -> result team.

Definition supported_exts : list str :=
  [lit ".pdf"; lit ".docx"; lit ".xlsx"].

(** [p.suffix.lower() in {".pdf", ".docx", ".xlsx"}] *)
Definition supported (p : Path) : bool :=
  existsb (str_eqb (lower (suffix p))) supported_exts.

(** The [handlers] table of [load_evidence]. *)
Definition handlers
    : list (str * ((libs -> Path -> Z -> result str) * str)) :=
  [(lit ".pdf", (read_pdf, lit "pdf"));
   (lit ".docx", (read_docx, lit "docx"));
   (lit ".xlsx", (read_xlsx, lit "xlsx"))].

Definition handler_for (ext : str)
    : option ((libs -> Path -> Z -> result str) * str) :=
  match find (fun h => str_eqb ext (fst h)) handlers with
  | Some h => Some (snd h)
  | None => None
  end.

Fixpoint load_evidence (paths : list Path) (per_file : Z)
    : result (list EvidenceItem) :=
  match paths with
  | [] => Ok []
  | p :: rest =>
      match handler_for (lower (suffix p)) with
      | Some (reader, kind) =>
          text <- reader L p per_file ;;
          items <- load_evidence rest per_file ;;
          Ok ({| path := p; kind := kind; title := name p;
                 excerpt := text |} :: items)
      | None => load_evidence rest per_file
      end
  end.

Definition run_audit (items : list EvidenceItem) : list output :=
  match items with
  | [] => [Print (lit "No evidence. Use `add <files>`")]
  | _ =>
      let '(context, filenames) := build_context items 10000 in
      [Print (lit "Context length: " ++ str_of_nat (length context)
              ++ lit " chars");
       Print (lit "Starting audit...");
       TeamRun context filenames]
  end.

(** [found] of the [add] command. *)
Definition found_paths (fs : FS) (args : list str) : list Path :=
  filter supported (discover_paths fs args).

(** [[p for p in found if p not in queue]] *)
Definition fresh (queue found : list Path) : list Path :=
  filter (fun p => negb (mem p queue)) found.

Definition cmd_add (queue : list Path) (fs : FS) (args : list str)
    : list Path * list output :=
  match args with
  | [] => (queue, [Print (lit "Usage: add <files>")])
  | _ =>
      let found := found_paths fs args in
      match found with
      | [] => (queue, [Print (lit "No supported files found")])
      | _ =>
          (queue ++ fresh queue found,
           [Print (lit "Added " ++ str_of_nat (length found)
                   ++ lit " files")])
      end
  end.

(** [f"{i:2d}. {p}"] *)
Definition list_line (i : nat) (p : Path) : str :=
  let d := str_of_nat i in
  (if length d <? 2 then [SPACE] else []) ++ d ++ lit ". " ++ p.

Fixpoint list_lines (i : nat) (queue : list Path) : list output :=
  match queue with
  | [] => []
  | p :: rest => Print (list_line i p) :: list_lines (S i) rest
  end.

Definition cmd_list (queue : list Path) : list output :=
  match queue with
  | [] => [Print (lit "Queue empty")]
  | _ => list_lines 1 queue
  end.

Definition cmd_run (queue : list Path) : list output * control :=
  match queue with
  | [] => ([Print (lit "Queue empty")], Continue)
  | _ =>
      match load_evidence queue 1600 with
      | Ok items => (run_audit items, Continue)
      | Raise e => ([], Uncaught e)
      end
  end.

(** The body of [while True] once [input] has returned [raw]. *)
Definition dispatch (queue : list Path) (fs : FS) (raw : str)
    : list Path * list output * control :=
  match strip raw with
  | [] => (queue, [], Continue)
  | raw' =>
      match split raw' with
      | [] => (queue, [],
               Uncaught (lit "not enough values to unpack (expected at least 1, got 0)"))
      | cmd :: args =>
          let cmd := lower cmd in
          if str_eqb cmd (lit "quit") || str_eqb cmd (lit "exit")
          then (queue, [], Break)
          else if str_eqb cmd (lit "add")
          then let '(q, o) := cmd_add queue fs args in (q, o, Continue)
          else if str_eqb cmd (lit "list")
          then (queue, cmd_list queue, Continue)
          else if str_eqb cmd (lit "clear")
          then ([], [Print (lit "Queue cleared")], Continue)
          else if str_eqb cmd (lit "run")
          then let '(o, c) := cmd_run queue in (queue, o, c)
          else (queue, [Print (lit "Unknown command")], Continue)
      end
  end.

(** The call of the body that can raise on the line [raw], with what
    has been printed when it is made: [discover_paths(args)] for [add]
    with arguments (nothing printed yet), [team.run] for [run] once
    [run_audit] has evidence (the two lines before the call printed);
    [None] when the line makes neither call. *)
Definition raising_call (queue : list Path) (raw : str)
    : option (list output) :=
  match split (strip raw) with
  | [] => None
  | cmd :: args =>
      let cmd := lower cmd in
      if str_eqb cmd (lit "quit") || str_eqb cmd (lit "exit") then None
      else if str_eqb cmd (lit "add")
      then match args with [] => None | _ => Some [] end
      else if str_eqb cmd (lit "list") then None
      else if str_eqb cmd (lit "clear") then None
      else if str_eqb cmd (lit "run")
      then match queue with
           | [] => None
           | _ =>
               match load_evidence queue 1600 with
               | Ok (it :: items) =>
                   let '(context, filenames) :=
                     build_context (it :: items) 10000 in
                   Some [Print (lit "Context length: "
                                ++ str_of_nat (length context)
                                ++ lit " chars");
                         Print (lit "Starting audit...")]
               | _ => None
               end
           end
      else None
  end.

(** One iteration: prompt, read, dispatch; [EOFError] and
    [KeyboardInterrupt] leave the loop, an exception of the body
    propagates. *)
Definition step (queue : list Path) (ev : input_event)
    : list Path * list output * control :=
  match ev with
  | Line fs raw =>
      let '(q, o, c) := dispatch queue fs raw in
      (q, Prompt (lit "iec62304> ") :: o, c)
  | EOFError | KeyboardInterrupt =>
      (queue, [Prompt (lit "iec62304> ")], Break)
  | Raising fs raw e =>
      match raising_call queue raw with
      | Some o => (queue, Prompt (lit "iec62304> ") :: o, Uncaught e)
      | None =>
          let '(q, o, c) := dispatch queue fs raw in
          (q, Prompt (lit "iec62304> ") :: o, c)
      end
  end.

(** [while True] over the inputs of the session; when they run out,
    [input] raises [EOFError]. *)
Fixpoint loop (queue : list Path) (evs : list input_event)
    : list Path * list output * control :=
  match evs with
  | [] => step queue EOFError
  | ev :: rest =>
      let '(q, o, c) := step queue ev in
      match c with
      | Continue =>
          let '(q', o', c') := loop q rest in (q', o ++ o', c')
      | _ => (q, o, c)
      end
  end.

Definition banner : list output :=
  [Print ([LF] ++ lit "IEC 62304 Auditor Commands:");
   Print (lit "  add <files>  - Add documentation");
   Print (lit "  list        - Show queued files");
   Print (lit "  clear       - Clear queue");
   Print (lit "  run         - Execute audit");
   Print (lit "  quit        - Exit" ++ [LF])].

Definition API_KEY : str := lit "ANTHROPIC_API_KEY".

(** [os.getenv("CLAUDE_MODEL", "claude-sonnet-4-20250514")] *)
Definition model_name (env : environ) : str :=
  match env_get (lit "CLAUDE_MODEL") env with
  | Some m => m
  | None => lit "claude-sonnet-4-20250514"
  end.

(** [build_model_client]: [KeyError] when the key is not in
    [os.environ], else what the constructor of the client does with the
    model name and the key (it raises [ValueError] on a model name it
    does not know). *)
Definition build_model_client (env : environ) : result client :=
  match env_get API_KEY env with
  | Some key => AnthropicChatCompletionClient (model_name env) key
  | None => Raise (lit "'ANTHROPIC_API_KEY'")
  end.

(** [build_team]: the client, then the agents and the group chats
    around it. *)
Definition build_team (env : environ) : result team :=
  c <- build_model_client env ;;
  assemble_team c.

(** [main]: build the team, start with an empty queue, run the loop.
    An exception of [build_team] propagates before anything is printed,
    one of the loop after what has been printed so far. *)
Definition main (env : environ) (evs : list input_event) : outcome :=
  match build_team env with
  | Raise e => Crashed e []
  | Ok _ =>
      let '(q, o, c) := loop [] evs in
      match c with
      | Uncaught e => Crashed e (banner ++ o)
      | _ => Returned q (banner ++ o ++ [Print ([LF] ++ lit "Bye.")])
      end
  end.

(** The queue after the inputs [evs], from the empty queue of [main]. *)
Definition queue_after (evs : list input_event) : list Path :=
  fst (fst (loop [] evs)).

(** The [__main__] block. *)
Definition program (env : environ) (evs : list input_event) : outcome :=
  let env := load_dotenv env in
  if negb (env_has API_KEY env)
  then SysExit 1 [Print (lit "ERROR: Set ANTHROPIC_API_KEY")]
  else main env evs.

End Session.

(** ** Vocabulary of the properties *)

(** The two passes of [clean_text]. *)
Definition sub_blanks (s : str) : str := re_sub pat_blanks [SPACE] s.
Definition sub_newlines (s : str) : str := re_sub pat_newlines [LF] s.

Definition starts_with_lf (s : str) : bool :=
  match s with
  | c :: _ => is_lf c
  | [] => false
  end.

(** [\r?\n+] does not match at [c :: t]: [c] is no newline, and if it
    is a carriage return no newline follows it. *)
Definition no_newline_match (c : char) (t : str) : bool :=
  negb (is_lf c) && negb (is_cr c && starts_with_lf t).

(** No two neighbouring characters of [s] both satisfy [P]. *)
Fixpoint no_adjacent (P : char -> bool) (s : str) : bool :=
  match s with
  | x :: (y :: _) as t => negb (P x && P y) && no_adjacent P t
  | _ => true
  end.

(** The lines of a text, [s.split("\n")]; [cur] is the line being read,
    last character first. *)
Fixpoint lines_from (cur : str) (s : str) : list str :=
  match s with
  | [] => [rev cur]
  | c :: t =>
      if is_lf c then rev cur :: lines_from [] t
      else lines_from (c :: cur) t
  end.

Definition text_lines (s : str) : list str := lines_from [] s.

(** Position of the first occurrence of [x] in [l] ([length l] when
    there is none). *)
Fixpoint index_of (x : Path) (l : list Path) : nat :=
  match l with
  | [] => O
  | y :: t => if str_eqb x y then O else S (index_of x t)
  end.

(** ** Sample inputs *)

Definition item_long : EvidenceItem :=
  {| path := lit "/d/plan.pdf"; kind := lit "pdf"; title := lit "plan.pdf";
     excerpt := lit "software development plan, version 3" |}.

Definition sample_pdf : list page :=
  [ {| extract_text := Ok (Some (lit "  Software   requirements ")) |};
    {| extract_text := Ok None |};
    {| extract_text := Ok (Some (lit "Risk analysis")) |} ].

Definition sample_sheet : worksheet :=
  {| ws_title := lit "Trace";
     ws_rows :=
       [ Ok [ {| value_truthy := true; value_str := lit "REQ-1" |};
              {| value_truthy := false; value_str := lit "None" |};
              {| value_truthy := true; value_str := lit "TC-7" |} ];
         Ok [ {| value_truthy := true; value_str := lit "REQ-2" |} ] ] |}.

(** The three libraries installed, every file well-formed. *)
Definition libs_all : libs :=
  {| PdfReader := Some (fun _ => Ok sample_pdf);
     docx := Some (fun _ => Ok [lit " Scope "; lit "   "; lit "Design  notes"]);
     openpyxl := Some (fun _ => Ok [sample_sheet]) |}.

(** No library installed. *)
Definition libs_none : libs :=
  {| PdfReader := None; docx := None; openpyxl := None |}.

(** Every file is malformed: a page raises, opening raises, a row raises. *)
Definition libs_failing : libs :=
  {| PdfReader :=
       Some (fun _ => Ok [ {| extract_text := Raise (lit "bad xref") |} ]);
     docx := Some (fun _ => Raise (lit "not a zip file"));
     openpyxl :=
       Some (fun _ => Ok [ {| ws_title := lit "S";
                              ws_rows := [Raise (lit "bad row")] |} ]) |}.

(** A directory [/d] with five entries, one of them a directory. *)
Definition sample_fs : FS :=
  {| glob := fun pat =>
       if str_eqb pat (lit "*.pdf") then [lit "b.pdf"; lit "a.pdf"]
       else if str_eqb pat (lit "*")
       then [lit "a.pdf"; lit "notes.txt"; lit "c.DOCX"; lit "b.pdf"; lit "sub"]
       else if str_eqb pat (lit "a.*") then [lit "a.pdf"]
       else [];
     resolve := fun p => lit "/d/" ++ p;
     path_exists := fun _ => true;
     path_is_file := fun p => negb (str_eqb p (lit "/d/sub")) |}.

(** [str.lower] on ASCII text, for the sample sessions. *)
Definition ascii_lower (s : str) : str :=
  map (fun c => if ((65 <=? c) && (c <=? 90))%N then (c + 32)%N else c) s.

Definition sample_session : list input_event :=
  [ Line sample_fs (lit "add *.pdf");
    Line sample_fs (lit "  ADD  *  ");
    Line sample_fs (lit "list") ].

Definition sample_env : environ :=
  [(lit "HOME", lit "/home/qa"); (lit "ANTHROPIC_API_KEY", lit "sk-test")].

Definition messy_text : str :=
  [SPACE; TAB] ++ lit "Scope" ++ [TAB; TAB; SPACE] ++ lit "of  use"
  ++ [LF; LF; LF] ++ lit "Class B" ++ [SPACE; LF].

(** ** Token accounting *)

(** The two counters of a [TokenAccumulator] object; [add_usage] returns
    the object as it is after the call. *)
Record TokenAccumulator := {
  input_tokens : Z;
  output_tokens : Z
}.

(** [TokenAccumulator()] *)
Definition new_accumulator : TokenAccumulator :=
  {| input_tokens := 0; output_tokens := 0 |}.

(** A usage dictionary with integer counts, as the list of its items. *)
Definition usage_dict := list (str * Z).

(** [usage.get(key, 0)] *)
Definition usage_get (key : str) (usage : usage_dict) : Z :=
  match find (fun kv => str_eqb key (fst kv)) usage with
  | Some kv => snd kv
  | None => 0%Z
  end.

(** [add_usage(usage)]: [None] and the empty dictionary are falsy. *)
Definition add_usage (acc : TokenAccumulator) (usage : option usage_dict)
    : TokenAccumulator :=
  match usage with
  | None => acc
  | Some [] => acc
  | Some u =>
      {| input_tokens :=
           (input_tokens acc
            + (usage_get (lit "prompt_tokens") u
               + usage_get (lit "input_tokens") u))%Z;
         output_tokens :=
           (output_tokens acc
            + (usage_get (lit "completion_tokens") u
               + usage_get (lit "output_tokens") u))%Z |}
  end.

(** [str(n)] for an [int]. *)
Definition str_of_int (n : Z) : str :=
  if (n <? 0)%Z then lit "-" ++ str_of_nat (Z.to_nat (- n))
  else str_of_nat (Z.to_nat n).

Definition report (acc : TokenAccumulator) : str :=
  let total := (input_tokens acc + output_tokens acc)%Z in
  lit "Tokens - Total: " ++ str_of_int total
  ++ lit ", In: " ++ str_of_int (input_tokens acc)
  ++ lit ", Out: " ++ str_of_int (output_tokens acc).

(** ** Further vocabulary *)

(** The characters of a text that are not whitespace. *)
Definition visible (s : str) : str :=
  filter (fun c => negb (is_space c)) s.

(** A text as [clean_text] leaves one without carriage return. *)
Definition normalised (s : str) : Prop :=
  ~ In TAB s /\
  no_adjacent is_blank s = true /\
  no_adjacent is_lf s = true /\
  (forall c t, s = c :: t -> is_space c = false) /\
  (forall c t, rev s = c :: t -> is_space c = false).

(** The chunk of an item in [build_context], before truncation. *)
Definition chunk_of (it : EvidenceItem) : str :=
  [LF] ++ lit "## " ++ title it ++ lit " (" ++ kind it ++ lit ")"
  ++ [LF] ++ excerpt it ++ [LF].

(** Usages for the samples. *)
Definition usage_a : option usage_dict :=
  Some [(lit "prompt_tokens", 120%Z); (lit "completion_tokens", 30%Z)].

Definition usage_b : option usage_dict :=
  Some [(lit "input_tokens", 7%Z); (lit "output_tokens", 5%Z);
        (lit "cache_read_input_tokens", 99%Z)].

(** The sample PDF followed by a page whose extraction raises. *)
Definition bad_page : page := {| extract_text := Raise (lit "bad xref") |}.

Definition libs_bad_tail : libs :=
  {| PdfReader := Some (fun _ => Ok (sample_pdf ++ [bad_page]));
     docx := None; openpyxl := None |}.

(** A scanned PDF: no page has text. *)
Definition libs_blank_pdf : libs :=
  {| PdfReader := Some (fun _ => Ok [ {| extract_text := Ok None |};
                                      {| extract_text := Ok (Some [SPACE; LF]) |} ]);
     docx := None; openpyxl := None |}.

(** Two workbooks that differ in their fourth sheet only. *)
Definition three_sheets : list worksheet :=
  [sample_sheet; sample_sheet; sample_sheet].

Definition four_sheets : list worksheet :=
  three_sheets
  ++ [ {| ws_title := lit "Extra"; ws_rows := [Raise (lit "bad row")] |} ].

(** A client constructor that knows one model name, and a team of the
    two participants of the outer group chat. *)
Definition sample_client (model key : str) : result str :=
  if str_eqb model (lit "claude-sonnet-4-20250514") then Ok model
  else Raise (lit "model_info is required when model name is not a valid Anthropic model").

Definition sample_assemble (c : str) : result (list str) :=
  Ok [lit "society_of_mind_auditor"; lit "translator_th"].

(** * Properties *)

Unset Implicit Arguments.

(** ** Lengths and slices *)

Lemma len_app (a b : str) : len (a ++ b) = (len a + len b)%Z.
Proof. unfold len. rewrite length_app. lia. Qed.

Lemma len_nonneg (s : str) : (0 <= len s)%Z.
Proof. unfold len. lia. Qed.

Lemma slice_to_bound (n : Z) (s : str) :
  (0 <= n)%Z -> (len (slice_to n s) <= n)%Z.
Proof.
  intros Hn. unfold slice_to, len.
  destruct (0 <=? n)%Z eqn:E; [|lia].
  rewrite length_firstn. lia.
Qed.

Lemma sum_len_app (a b : list str) :
  sum_len (a ++ b) = (sum_len a + sum_len b)%Z.
Proof.
  induction a as [|x a IH]; simpl; [reflexivity|].
  fold (sum_len (a ++ b)). fold (sum_len a). rewrite IH. lia.
Qed.

Lemma join_empty_len (l : list str) : len (join [] l) = sum_len l.
Proof.
  induction l as [|x l IH]; [reflexivity|].
  destruct l as [|y l].
  - simpl. lia.
  - change (join [] (x :: y :: l)) with (x ++ [] ++ join [] (y :: l)).
    rewrite len_app.
    change ([] ++ join [] (y :: l)) with (join [] (y :: l)). rewrite IH.
    change (sum_len (x :: y :: l)) with (len x + sum_len (y :: l))%Z.
    reflexivity.
Qed.

(** ** [build_context] *)

(** The loop adds at most the budget that remains to it. *)
Lemma context_loop_bound (items : list EvidenceItem) :
  forall remaining lines filenames,
    (sum_len (fst (context_loop items remaining lines filenames))
     <= sum_len lines + Z.max 0 remaining)%Z.
Proof.
  induction items as [|it rest IH]; intros remaining lines filenames.
  - simpl. lia.
  - simpl context_loop.
    destruct (remaining <=? 0)%Z eqn:Hr.
    + simpl. lia.
    + apply Z.leb_gt in Hr.
      match goal with
      | |- context [context_loop rest (remaining - len ?c) _ _] =>
          set (chunk := c)
      end.
      assert (Hc : (len chunk <= remaining)%Z).
      { subst chunk.
        match goal with
        | |- context [(len ?c >? remaining)%Z] =>
            destruct (len c >? remaining)%Z eqn:Hgt
        end.
        - apply slice_to_bound. lia.
        - rewrite Z.gtb_ltb in Hgt. apply Z.ltb_ge in Hgt. exact Hgt. }
      specialize (IH (remaining - len chunk)%Z (lines ++ [chunk])
                     (filenames ++ [title it])).
      rewrite sum_len_app in IH. simpl sum_len in IH.
      pose proof (len_nonneg chunk). lia.
Qed.

Lemma build_context_len (items : list EvidenceItem) (max_chars : Z) :
  (len (fst (build_context items max_chars)) <= Z.max max_chars (len HEADER))%Z.
Proof.
  unfold build_context.
  pose proof (context_loop_bound items (max_chars - len HEADER) [HEADER] [])
    as H.
  destruct (context_loop items (max_chars - len HEADER) [HEADER] [])
    as [lines filenames].
  simpl fst in *. rewrite join_empty_len.
  simpl sum_len in H. lia.
Qed.

(** C1, as amended: when the budget [max_chars] is at least 9, the
    length of the header ["Evidence:"], the context string returned by
    [build_context] has length at most [max_chars], whatever the items
    and however long their excerpts. *)
Theorem C1_build_context_within_budget
    (items : list EvidenceItem) (max_chars : Z) :
  (9 <= max_chars)%Z ->
  (len (fst (build_context items max_chars)) <= max_chars)%Z.
Proof.
  intros H. pose proof (build_context_len items max_chars) as B.
  change (len HEADER) with 9%Z in B. lia.
Qed.

Lemma C1_build_context_within_budget_witness :
  (9 <= 20)%Z /\ (len (fst (build_context [item_long; item_long] 20)) <= 20)%Z.
Proof.
  split; [lia|].
  apply (C1_build_context_within_budget [item_long; item_long] 20). lia.
Defined.

(** C1 as stated fails below the length of the header: with a budget of
    5 and no item the context is ["Evidence:"], 9 characters. *)
Lemma C1_counterexample :
  fst (build_context [] 5) = lit "Evidence:" /\
  ~ (len (fst (build_context [] 5)) <= 5)%Z.
Proof. split; [reflexivity|]. vm_compute. intros H. apply H. reflexivity. Qed.

(** ** The readers *)

Lemma read_pdf_body_bound rd p max_chars s :
  (0 <= max_chars)%Z ->
  read_pdf_body rd p max_chars = Ok s -> (len s <= max_chars)%Z.
Proof.
  intros Hm. unfold read_pdf_body.
  destruct (rd p) as [pages|e]; cbn [bind]; [|discriminate].
  destruct (pdf_pages max_chars 0 (firstn 10 pages) []) as [texts|e];
    cbn [bind]; [|discriminate].
  intros [= <-]. now apply slice_to_bound.
Qed.

Lemma read_docx_body_bound doc p max_chars s :
  (0 <= max_chars)%Z ->
  read_docx_body doc p max_chars = Ok s -> (len s <= max_chars)%Z.
Proof.
  intros Hm. unfold read_docx_body.
  destruct (doc p) as [paragraphs|e]; cbn [bind]; [|discriminate].
  intros [= <-]. now apply slice_to_bound.
Qed.

Lemma read_xlsx_body_bound wb p max_chars s :
  (0 <= max_chars)%Z ->
  read_xlsx_body wb p max_chars = Ok s -> (len s <= max_chars)%Z.
Proof.
  intros Hm. unfold read_xlsx_body.
  destruct (wb p) as [worksheets|e]; cbn [bind]; [|discriminate].
  destruct (xlsx_sheets max_chars (firstn 3 worksheets) []) as [parts|e];
    cbn [bind]; [|discriminate].
  intros [= <-]. now apply slice_to_bound.
Qed.

(** C2, as amended: for a budget [max_chars >= 0], when the parsing
    library of the format is present and extraction raises no exception,
    the string returned by [read_pdf], [read_docx] and [read_xlsx] is
    the extracted text and has length at most [max_chars].  (The
    placeholders of the other branches are returned whole.) *)
Theorem C2_extraction_within_budget (L : libs) (p : Path) (max_chars : Z) :
  (0 <= max_chars)%Z ->
  (forall rd s,
      PdfReader L = Some rd -> read_pdf_body rd p max_chars = Ok s ->
      read_pdf L p max_chars = Ok s /\ (len s <= max_chars)%Z) /\
  (forall doc s,
      docx L = Some doc -> read_docx_body doc p max_chars = Ok s ->
      read_docx L p max_chars = Ok s /\ (len s <= max_chars)%Z) /\
  (forall wb s,
      openpyxl L = Some wb -> read_xlsx_body wb p max_chars = Ok s ->
      read_xlsx L p max_chars = Ok s /\ (len s <= max_chars)%Z).
Proof.
  intros Hm. repeat split.
  - unfold read_pdf. rewrite H, H0. reflexivity.
  - eapply read_pdf_body_bound; eassumption.
  - unfold read_docx. rewrite H, H0. reflexivity.
  - eapply read_docx_body_bound; eassumption.
  - unfold read_xlsx. rewrite H, H0. reflexivity.
  - eapply read_xlsx_body_bound; eassumption.
Qed.

Example read_pdf_sample :
  read_pdf libs_all (lit "/d/a.pdf") 2000
  = Ok (lit "[p1] Software requirements" ++ [LF] ++ lit "[p3] Risk analysis").
Proof. reflexivity. Qed.

Example read_docx_sample :
  read_docx libs_all (lit "/d/a.docx") 2000
  = Ok (lit "Scope" ++ [LF] ++ lit "Design notes").
Proof. reflexivity. Qed.

Example read_xlsx_sample :
  read_xlsx libs_all (lit "/d/a.xlsx") 2000
  = Ok (lit "[Trace] REQ-1, , TC-7 | REQ-2").
Proof. reflexivity. Qed.

Lemma C2_extraction_within_budget_witness :
  (0 <= 7)%Z /\
  read_pdf libs_all (lit "/d/a.pdf") 7 = Ok (lit "[p1] So") /\
  (len (lit "[p1] So") <= 7)%Z /\
  read_docx libs_all (lit "/d/a.docx") 7 = Ok (lit "Scope" ++ [LF] ++ lit "D") /\
  read_xlsx libs_all (lit "/d/a.xlsx") 7 = Ok (lit "[Trace]").
Proof.
  destruct (C2_extraction_within_budget libs_all (lit "/d/a.pdf") 7
              ltac:(lia)) as (Hp & _).
  destruct (C2_extraction_within_budget libs_all (lit "/d/a.docx") 7
              ltac:(lia)) as (_ & Hd & _).
  destruct (C2_extraction_within_budget libs_all (lit "/d/a.xlsx") 7
              ltac:(lia)) as (_ & _ & Hx).
  split; [lia|].
  destruct (Hp _ (lit "[p1] So") eq_refl eq_refl) as [E1 B1].
  destruct (Hd _ (lit "Scope" ++ [LF] ++ lit "D") eq_refl eq_refl) as [E2 _].
  destruct (Hx _ (lit "[Trace]") eq_refl eq_refl) as [E3 _].
  repeat split; assumption.
Defined.

(** C2 as stated fails in the placeholder branches: without [pypdf] and
    with a budget of 5, [read_pdf] returns the 15 characters of
    ["(Install pypdf)"]; with a workbook whose row raises, [read_xlsx]
    returns the 21 characters of its error placeholder.  It also fails
    for a negative budget, where [[:max_chars]] drops characters from
    the end: with a budget of -1, [read_docx] returns 17 characters. *)
Lemma C2_counterexample :
  read_pdf libs_none (lit "/d/a.pdf") 5 = Ok (lit "(Install pypdf)") /\
  ~ (len (lit "(Install pypdf)") <= 5)%Z /\
  read_xlsx libs_failing (lit "/d/a.xlsx") 5
  = Ok (lit "(XLSX error: bad row)") /\
  ~ (len (lit "(XLSX error: bad row)") <= 5)%Z /\
  read_docx libs_all (lit "/d/a.docx") (-1)
  = Ok (lit "Scope" ++ [LF] ++ lit "Design note") /\
  ~ (len (lit "Scope" ++ [LF] ++ lit "Design note") <= -1)%Z.
Proof.
  repeat split; try reflexivity; vm_compute; intros H; apply H; reflexivity.
Qed.

(** [load_evidence] raises only if a reader does. *)
Lemma load_evidence_ok lower L paths per_file :
  exists items, load_evidence lower L paths per_file = Ok items.
Proof.
  induction paths as [|p rest [items IH]]; simpl.
  - eexists; reflexivity.
  - unfold handler_for.
    destruct (find _ handlers) as [h|] eqn:F; [|eauto].
    assert (Hr : exists s, fst (snd h) L p per_file = Ok s).
    { unfold handlers in F. simpl in F.
      repeat match type of F with
             | (if ?b then _ else _) = _ => destruct b
             end; inversion F; subst; simpl.
      - unfold read_pdf. destruct (PdfReader L); [|eauto].
        destruct (read_pdf_body _ _ _); simpl; eauto.
      - unfold read_docx. destruct (docx L); [|eauto].
        destruct (read_docx_body _ _ _); simpl; eauto.
      - unfold read_xlsx. destruct (openpyxl L); [|eauto].
        destruct (read_xlsx_body _ _ _); simpl; eauto. }
    destruct Hr as [s Hs]. destruct (snd h) as [reader k]. simpl in Hs.
    rewrite Hs. simpl. rewrite IH. simpl. eauto.
Qed.

(** C3: extraction never propagates an exception.  Each reader returns
    a string in every case: the ["(Install ...)"] placeholder when its
    library is absent, the ["(<FORMAT> error: ...)"] placeholder with
    the text of the exception when opening or parsing raises; and
    [load_evidence], which calls them file by file, returns its items
    whatever the files are. *)
Theorem C3_extraction_never_raises (L : libs) (p : Path) (max_chars : Z) :
  ((exists s, read_pdf L p max_chars = Ok s) /\
   (PdfReader L = None -> read_pdf L p max_chars = Ok (lit "(Install pypdf)")) /\
   (forall rd e,
       PdfReader L = Some rd -> read_pdf_body rd p max_chars = Raise e ->
       read_pdf L p max_chars = Ok (lit "(PDF error: " ++ e ++ lit ")"))) /\
  ((exists s, read_docx L p max_chars = Ok s) /\
   (docx L = None ->
    read_docx L p max_chars = Ok (lit "(Install python-docx)")) /\
   (forall doc e,
       docx L = Some doc -> read_docx_body doc p max_chars = Raise e ->
       read_docx L p max_chars = Ok (lit "(DOCX error: " ++ e ++ lit ")"))) /\
  ((exists s, read_xlsx L p max_chars = Ok s) /\
   (openpyxl L = None ->
    read_xlsx L p max_chars = Ok (lit "(Install openpyxl)")) /\
   (forall wb e,
       openpyxl L = Some wb -> read_xlsx_body wb p max_chars = Raise e ->
       read_xlsx L p max_chars = Ok (lit "(XLSX error: " ++ e ++ lit ")"))) /\
  (forall lower paths,
      exists items, load_evidence lower L paths max_chars = Ok items).
Proof.
  split; [|split; [|split]].
  - unfold read_pdf. destruct (PdfReader L) as [rd|].
    + split; [|split].
      * destruct (read_pdf_body rd p max_chars); simpl; eauto.
      * discriminate.
      * intros rd' e [= <-] ->. reflexivity.
    + split; [eauto|split]; [reflexivity|discriminate].
  - unfold read_docx. destruct (docx L) as [doc|].
    + split; [|split].
      * destruct (read_docx_body doc p max_chars); simpl; eauto.
      * discriminate.
      * intros doc' e [= <-] ->. reflexivity.
    + split; [eauto|split]; [reflexivity|discriminate].
  - unfold read_xlsx. destruct (openpyxl L) as [wb|].
    + split; [|split].
      * destruct (read_xlsx_body wb p max_chars); simpl; eauto.
      * discriminate.
      * intros wb' e [= <-] ->. reflexivity.
    + split; [eauto|split]; [reflexivity|discriminate].
  - intros lower paths. apply load_evidence_ok.
Qed.

Lemma C3_extraction_never_raises_witness :
  read_pdf libs_none (lit "/d/a.pdf") 1600 = Ok (lit "(Install pypdf)") /\
  read_pdf libs_failing (lit "/d/a.pdf") 1600
  = Ok (lit "(PDF error: bad xref)") /\
  read_docx libs_failing (lit "/d/a.docx") 1600
  = Ok (lit "(DOCX error: not a zip file)") /\
  read_xlsx libs_failing (lit "/d/a.xlsx") 1600
  = Ok (lit "(XLSX error: bad row)").
Proof.
  destruct (C3_extraction_never_raises libs_none (lit "/d/a.pdf") 1600)
    as ((_ & Hn & _) & _).
  destruct (C3_extraction_never_raises libs_failing (lit "/d/a.pdf") 1600)
    as ((_ & _ & Hp) & _).
  destruct (C3_extraction_never_raises libs_failing (lit "/d/a.docx") 1600)
    as (_ & (_ & _ & Hd) & _).
  destruct (C3_extraction_never_raises libs_failing (lit "/d/a.xlsx") 1600)
    as (_ & _ & (_ & _ & Hx) & _).
  split; [exact (Hn eq_refl)|].
  split; [exact (Hp _ (lit "bad xref") eq_refl eq_refl)|].
  split; [exact (Hd _ (lit "not a zip file") eq_refl eq_refl)|].
  exact (Hx _ (lit "bad row") eq_refl eq_refl).
Defined.

(** ** File discovery *)

Lemma str_eqb_eq (a b : str) : str_eqb a b = true <-> a = b.
Proof.
  unfold str_eqb. destruct (list_eq_dec N.eq_dec a b); split;
    intros; congruence.
Qed.

Lemma str_eqb_refl (a : str) : str_eqb a a = true.
Proof. now apply str_eqb_eq. Qed.

Lemma str_eqb_neq (a b : str) : str_eqb a b = false <-> a <> b.
Proof.
  unfold str_eqb. destruct (list_eq_dec N.eq_dec a b); split;
    intros; congruence.
Qed.

Lemma mem_In (p : Path) (l : list Path) : mem p l = true <-> In p l.
Proof.
  unfold mem. rewrite existsb_exists. split.
  - intros (x & Hx & E). apply str_eqb_eq in E. now subst.
  - intros H. exists p. split; [assumption|apply str_eqb_refl].
Qed.

Lemma mem_not_In (p : Path) (l : list Path) : mem p l = false <-> ~ In p l.
Proof.
  rewrite <- mem_In. destruct (mem p l); split; congruence.
Qed.

Lemma fromkeys_snoc (l : list Path) (x : Path) :
  fromkeys (l ++ [x])
  = if mem x (fromkeys l) then fromkeys l else fromkeys l ++ [x].
Proof. unfold fromkeys. rewrite fold_left_app. reflexivity. Qed.

Lemma fromkeys_In (l : list Path) (p : Path) :
  In p (fromkeys l) <-> In p l.
Proof.
  induction l as [|x l IH] using rev_ind; [reflexivity|].
  rewrite fromkeys_snoc, in_app_iff. simpl.
  destruct (mem x (fromkeys l)) eqn:M.
  - apply mem_In in M. rewrite IH in *. intuition (subst; auto).
  - rewrite in_app_iff, IH. simpl. tauto.
Qed.

Lemma fromkeys_NoDup (l : list Path) : NoDup (fromkeys l).
Proof.
  induction l as [|x l IH] using rev_ind; [constructor|].
  rewrite fromkeys_snoc. destruct (mem x (fromkeys l)) eqn:M; [assumption|].
  apply mem_not_In in M. apply NoDup_app; [assumption|repeat constructor; auto|].
  intros a Ha [<-|[]]. contradiction.
Qed.

Lemma index_of_lt (x : Path) (l : list Path) :
  In x l -> index_of x l < length l.
Proof.
  induction l as [|y l IH]; simpl; [tauto|].
  intros H. destruct (str_eqb x y) eqn:E; [lia|].
  apply str_eqb_neq in E. destruct H as [->|H]; [congruence|].
  specialize (IH H). lia.
Qed.

Lemma index_of_app_in (x : Path) (l l' : list Path) :
  In x l -> index_of x (l ++ l') = index_of x l.
Proof.
  induction l as [|y l IH]; simpl; [tauto|].
  intros H. destruct (str_eqb x y) eqn:E; [reflexivity|].
  apply str_eqb_neq in E. destruct H as [->|H]; [congruence|].
  now rewrite IH.
Qed.

Lemma index_of_app_out (x : Path) (l l' : list Path) :
  ~ In x l -> index_of x (l ++ l') = length l + index_of x l'.
Proof.
  induction l as [|y l IH]; simpl; [reflexivity|].
  intros H. destruct (str_eqb x y) eqn:E.
  - apply str_eqb_eq in E. subst. tauto.
  - rewrite IH; tauto.
Qed.

Lemma fromkeys_order (l : list Path) :
  forall i j x y,
    nth_error (fromkeys l) i = Some x ->
    nth_error (fromkeys l) j = Some y ->
    i < j -> index_of x l < index_of y l.
Proof.
  induction l as [|z l IH] using rev_ind; intros i j x y Hx Hy Hij.
  - destruct i; discriminate.
  - rewrite fromkeys_snoc in Hx, Hy.
    assert (In_l : forall k p, nth_error (fromkeys l) k = Some p -> In p l).
    { intros k p H. apply fromkeys_In. eapply nth_error_In; eauto. }
    destruct (mem z (fromkeys l)) eqn:M.
    + rewrite !index_of_app_in by eauto. eauto.
    + apply mem_not_In in M. rewrite fromkeys_In in M.
      rewrite nth_error_app in Hx, Hy.
      destruct (Nat.ltb_spec j (length (fromkeys l))) as [Hj|Hj].
      * destruct (Nat.ltb_spec i (length (fromkeys l))); [|lia].
        rewrite !index_of_app_in by eauto. eauto.
      * destruct (Nat.ltb_spec i (length (fromkeys l))) as [Hi|Hi].
        -- destruct (j - length (fromkeys l)) as [|k] eqn:Ej; simpl in Hy;
             [|destruct k; discriminate].
           injection Hy as <-.
           rewrite index_of_app_in by eauto.
           rewrite index_of_app_out by assumption.
           pose proof (index_of_lt x l (In_l _ _ Hx)). lia.
        -- destruct (i - length (fromkeys l)) as [|k] eqn:Ei; simpl in Hx;
             [|destruct k; discriminate].
           destruct (j - length (fromkeys l)) as [|k] eqn:Ej; [lia|].
           simpl in Hy. destruct k; discriminate.
Qed.

(** C4: the list returned by [discover_paths] has no duplicate; it holds
    exactly the paths the patterns expand to; and its paths stand in the
    order of their first occurrences in that expansion: if [x] comes
    before [y] in the result, the first [x] comes before the first [y]
    among the globbed paths. *)
Theorem C4_discover_paths_dedup_first_seen (fs : FS) (patterns : list str) :
  NoDup (discover_paths fs patterns) /\
  (forall p, In p (discover_paths fs patterns) <-> In p (globbed fs patterns)) /\
  (forall i j x y,
      nth_error (discover_paths fs patterns) i = Some x ->
      nth_error (discover_paths fs patterns) j = Some y ->
      i < j ->
      index_of x (globbed fs patterns) < index_of y (globbed fs patterns)).
Proof.
  unfold discover_paths. split; [apply fromkeys_NoDup|].
  split; [intros p; apply fromkeys_In|apply fromkeys_order].
Qed.

Example discover_paths_sample :
  discover_paths sample_fs [lit "*.pdf"; lit "*"]
  = [lit "/d/b.pdf"; lit "/d/a.pdf"; lit "/d/notes.txt"; lit "/d/c.DOCX"].
Proof. reflexivity. Qed.

Lemma C4_discover_paths_dedup_first_seen_witness :
  index_of (lit "/d/b.pdf") (globbed sample_fs [lit "*.pdf"; lit "*"])
  < index_of (lit "/d/a.pdf") (globbed sample_fs [lit "*.pdf"; lit "*"]).
Proof.
  destruct (C4_discover_paths_dedup_first_seen sample_fs [lit "*.pdf"; lit "*"])
    as (_ & _ & H).
  apply (H 0 1); [reflexivity|reflexivity|lia].
Defined.

(** ** [strip] and [split] *)

Lemma take_drop_while (P : char -> bool) (s : str) :
  s = take_while P s ++ drop_while P s.
Proof.
  induction s as [|c t IH]; simpl; [reflexivity|].
  destruct (P c); simpl; [now f_equal|reflexivity].
Qed.

Lemma drop_while_head (P : char -> bool) (s : str) c t :
  drop_while P s = c :: t -> P c = false.
Proof.
  induction s as [|x s IH]; simpl; [discriminate|].
  destruct (P x) eqn:E; [assumption|]. intros [= <- _]. assumption.
Qed.

Lemma drop_while_id (P : char -> bool) (s : str) :
  match s with [] => True | c :: _ => P c = false end ->
  drop_while P s = s.
Proof. destruct s as [|c t]; simpl; [reflexivity|]. now intros ->. Qed.

(** [rstrip] keeps a prefix. *)
Lemma rstrip_prefix (s : str) : exists b, s = rstrip s ++ b.
Proof.
  unfold rstrip. exists (rev (take_while is_space (rev s))).
  rewrite <- rev_app_distr, <- take_drop_while. now rewrite rev_involutive.
Qed.

(** [strip] keeps a contiguous part. *)
Lemma strip_infix (s : str) : exists a b, s = a ++ strip s ++ b.
Proof.
  unfold strip. destruct (rstrip_prefix (lstrip s)) as [b Hb].
  exists (take_while is_space s), b.
  rewrite <- Hb. unfold lstrip. apply take_drop_while.
Qed.

Lemma strip_head (s : str) c t : strip s = c :: t -> is_space c = false.
Proof.
  unfold strip. intros H.
  destruct (rstrip_prefix (lstrip s)) as [b Hb]. rewrite H in Hb.
  unfold lstrip in Hb. simpl in Hb. eapply drop_while_head; eassumption.
Qed.

Lemma strip_last (s : str) c t : rev (strip s) = c :: t -> is_space c = false.
Proof.
  unfold strip, rstrip. rewrite rev_involutive. apply drop_while_head.
Qed.

Lemma split_from_nonempty (t cur : str) : cur <> [] -> split_from cur t <> [].
Proof.
  revert cur. induction t as [|c t IH]; intros cur Hc; simpl.
  - destruct cur; [congruence|discriminate].
  - destruct (is_space c).
    + destruct cur; [congruence|discriminate].
    + apply IH. discriminate.
Qed.

Lemma split_strip_nonempty (raw : str) : strip raw <> [] -> split (strip raw) <> [].
Proof.
  destruct (strip raw) as [|c t] eqn:E; [congruence|]. intros _.
  apply strip_head in E. unfold split. simpl. rewrite E.
  apply split_from_nonempty. discriminate.
Qed.

(** ** The queue *)

Ltac eval_eqb :=
  repeat match goal with
         | |- context [str_eqb (lit ?a) (lit ?b)] =>
             let v := eval vm_compute in (str_eqb (lit a) (lit b)) in
             change (str_eqb (lit a) (lit b)) with v
         end.

Lemma found_paths_nil lower fs : found_paths lower fs [] = [].
Proof. reflexivity. Qed.

Lemma found_paths_NoDup lower fs args : NoDup (found_paths lower fs args).
Proof. apply NoDup_filter, fromkeys_NoDup. Qed.

Lemma fresh_spec queue found p :
  In p (fresh queue found) <-> In p found /\ ~ In p queue.
Proof.
  unfold fresh. rewrite filter_In, negb_true_iff, mem_not_In. reflexivity.
Qed.

Lemma cmd_add_queue lower queue fs args :
  fst (cmd_add lower queue fs args)
  = queue ++ fresh queue (found_paths lower fs args).
Proof.
  unfold cmd_add. destruct args as [|a args].
  - simpl. now rewrite app_nil_r.
  - destruct (found_paths lower fs (a :: args)); simpl;
      [now rewrite app_nil_r|reflexivity].
Qed.

Lemma cmd_add_NoDup lower queue fs args :
  NoDup queue -> NoDup (fst (cmd_add lower queue fs args)).
Proof.
  intros H. rewrite cmd_add_queue. apply NoDup_app; [assumption| |].
  - apply NoDup_filter, found_paths_NoDup.
  - intros a Ha Hf. apply fresh_spec in Hf. tauto.
Qed.

(** What a command line can do to the queue. *)
Lemma dispatch_queue lower L queue fs raw :
  let q' := fst (fst (dispatch lower L queue fs raw)) in
  q' = queue \/ q' = [] \/
  exists args, q' = fst (cmd_add lower queue fs args).
Proof.
  unfold dispatch. destruct (strip raw) as [|c t]; [now left|].
  destruct (split (c :: t)) as [|cmd args]; [now left|].
  repeat match goal with
         | |- context [if ?b then _ else _] => destruct b
         end; simpl; auto.
  - destruct (cmd_add lower queue fs args) eqn:E. simpl.
    right; right. exists args. now rewrite E.
  - destruct (cmd_run lower L queue). simpl. now left.
Qed.



Section QueueInvariant.

Variable lower : str -> str.
Variable L : libs.
(** A property of queues that the empty queue has and that [add]
    keeps. *)
Variable Inv : list Path -> Prop.
Hypothesis Inv_nil : Inv [].
Hypothesis Inv_add :
  forall queue fs args,
    Inv queue -> Inv (fst (cmd_add lower queue fs args)).

Lemma step_inv queue ev :
  Inv queue -> Inv (fst (fst (step lower L queue ev))).
Proof.
  intros H.
  assert (D : forall fs raw,
             Inv (fst (fst (step lower L queue (Line fs raw))))).
  { intros fs raw. cbn [step].
    pose proof (dispatch_queue lower L queue fs raw) as D.
    destruct (dispatch lower L queue fs raw) as [[q o] c]. simpl in *.
    destruct D as [->|[->|[args ->]]]; auto. }
  destruct ev as [fs raw| | |fs raw e]; [apply D|assumption|assumption|].
  cbn [step]. destruct (raising_call lower L queue raw);
    [assumption|apply D].
Qed.

Lemma loop_inv evs :
  forall queue, Inv queue -> Inv (fst (fst (loop lower L queue evs))).
Proof.
  induction evs as [|ev rest IH]; intros queue H.
  - exact (step_inv queue EOFError H).
  - simpl. pose proof (step_inv queue ev H) as S1.
    destruct (step lower L queue ev) as [[q o] c]. simpl in S1.
    destruct c; try assumption.
    specialize (IH q S1).
    destruct (loop lower L q rest) as [[q' o'] c']. assumption.
Qed.

Lemma queue_after_inv evs : Inv (queue_after lower L evs).
Proof. apply loop_inv, Inv_nil. Qed.

End QueueInvariant.


Example queue_after_sample :
  queue_after ascii_lower libs_all sample_session
  = [lit "/d/b.pdf"; lit "/d/a.pdf"; lit "/d/c.DOCX"].
Proof. reflexivity. Qed.

Example queue_after_clear :
  queue_after ascii_lower libs_all
    (sample_session ++ [Line sample_fs (lit "clear"); Line sample_fs (lit "add a.*")])
  = [lit "/d/a.pdf"].
Proof. reflexivity. Qed.

Lemma dispatch_command lower L queue fs raw cmd args :
  split (strip raw) = cmd :: args ->
  dispatch lower L queue fs raw
  = let cmd := lower cmd in
    if str_eqb cmd (lit "quit") || str_eqb cmd (lit "exit")
    then (queue, [], Break)
    else if str_eqb cmd (lit "add")
    then let '(q, o) := cmd_add lower queue fs args in (q, o, Continue)
    else if str_eqb cmd (lit "list")
    then (queue, cmd_list queue, Continue)
    else if str_eqb cmd (lit "clear")
    then ([], [Print (lit "Queue cleared")], Continue)
    else if str_eqb cmd (lit "run")
    then let '(o, c) := cmd_run lower L queue in (queue, o, c)
    else (queue, [Print (lit "Unknown command")], Continue).
Proof.
  intros H. unfold dispatch.
  destruct (strip raw) as [|c t]; [discriminate|]. now rewrite H.
Qed.

(** C6: in every session the queue is a duplicate-free sequence of
    paths.  An [add] command leaves the queued paths in place and
    appends, in the order of their discovery, the found paths that are
    not queued yet; [clear] empties the queue; [list] and [run] leave it
    as it is. *)
Theorem C6_queue_ordered_duplicate_free (lower : str -> str) (L : libs) :
  (forall evs, NoDup (queue_after lower L evs)) /\
  (forall queue fs raw cmd args,
      split (strip raw) = cmd :: args ->
      let queue' := fst (fst (dispatch lower L queue fs raw)) in
      (lower cmd = lit "add" ->
       queue' = queue ++ fresh queue (found_paths lower fs args) /\
       fresh queue (found_paths lower fs args)
       = filter (fun p => negb (mem p queue)) (found_paths lower fs args) /\
       (forall p, In p (fresh queue (found_paths lower fs args)) ->
                  ~ In p queue) /\
       (NoDup queue -> NoDup queue')) /\
      (lower cmd = lit "clear" -> queue' = []) /\
      (lower cmd = lit "list" \/ lower cmd = lit "run" -> queue' = queue)).
Proof.
  split.
  - intros evs. apply queue_after_inv; [constructor|].
    intros queue fs args. apply cmd_add_NoDup.
  - intros queue fs raw cmd args Hs queue'. subst queue'.
    rewrite (dispatch_command lower L queue fs raw cmd args Hs). cbv zeta.
    split; [|split].
    + intros ->. eval_eqb. cbn [orb].
      pose proof (cmd_add_queue lower queue fs args) as Q.
      pose proof (cmd_add_NoDup lower queue fs args) as N.
      destruct (cmd_add lower queue fs args) as [q o]. simpl in *.
      split; [assumption|]. split; [reflexivity|]. split; [|assumption].
      intros p Hp. apply fresh_spec in Hp. tauto.
    + intros ->. eval_eqb. reflexivity.
    + intros [-> | ->]; eval_eqb; cbn [orb]; [reflexivity|].
      destruct (cmd_run lower L queue). reflexivity.
Qed.

Lemma C6_queue_ordered_duplicate_free_witness :
  NoDup (queue_after ascii_lower libs_all sample_session) /\
  fst (fst (dispatch ascii_lower libs_all [lit "/d/a.pdf"] sample_fs
              (lit "add *")))
  = [lit "/d/a.pdf"; lit "/d/c.DOCX"; lit "/d/b.pdf"] /\
  fst (fst (dispatch ascii_lower libs_all [lit "/d/a.pdf"] sample_fs
              (lit "Clear")))
  = [].
Proof.
  destruct (C6_queue_ordered_duplicate_free ascii_lower libs_all) as [N D].
  split; [apply N|].
  split.
  - destruct (D [lit "/d/a.pdf"] sample_fs (lit "add *") (lit "add") [lit "*"]
                eq_refl) as (A & _).
    destruct (A eq_refl) as (E & _). exact E.
  - destruct (D [lit "/d/a.pdf"] sample_fs (lit "Clear") (lit "Clear") []
                eq_refl) as (_ & C & _).
    exact (C eq_refl).
Defined.

Lemma existsb_supported lower p :
  supported lower p = true <->
  lower (suffix p) = lit ".pdf" \/ lower (suffix p) = lit ".docx" \/
  lower (suffix p) = lit ".xlsx".
Proof.
  unfold supported, supported_exts. simpl.
  rewrite !orb_true_iff, !str_eqb_eq. intuition congruence.
Qed.

(** C7: only paths whose lowercased extension is [.pdf], [.docx] or
    [.xlsx] are queued: every path an [add] command appends has such an
    extension, and so has every path of the queue at any point of a
    session, whatever else the patterns expand to. *)
Theorem C7_only_supported_extensions_queued (lower : str -> str) (L : libs) :
  (forall queue fs args p,
      In p (fresh queue (found_paths lower fs args)) ->
      In p (discover_paths fs args) /\
      (lower (suffix p) = lit ".pdf" \/ lower (suffix p) = lit ".docx" \/
       lower (suffix p) = lit ".xlsx")) /\
  (forall evs p,
      In p (queue_after lower L evs) ->
      lower (suffix p) = lit ".pdf" \/ lower (suffix p) = lit ".docx" \/
      lower (suffix p) = lit ".xlsx").
Proof.
  assert (A : forall queue fs args p,
             In p (fresh queue (found_paths lower fs args)) ->
             In p (discover_paths fs args) /\ supported lower p = true).
  { intros queue fs args p Hp. apply fresh_spec in Hp. destruct Hp as [Hp _].
    unfold found_paths in Hp. now apply filter_In in Hp. }
  split.
  - intros queue fs args p Hp. rewrite <- existsb_supported. eauto.
  - intros evs p Hp. rewrite <- existsb_supported.
    revert p Hp. apply Forall_forall.
    apply (queue_after_inv lower L
             (Forall (fun p => supported lower p = true))); [constructor|].
    intros queue fs args Hq. rewrite cmd_add_queue.
    apply Forall_app. split; [assumption|].
    apply Forall_forall. intros x Hx. now apply A in Hx.
Qed.

Lemma C7_only_supported_extensions_queued_witness :
  ascii_lower (suffix (lit "/d/c.DOCX")) = lit ".pdf" \/
  ascii_lower (suffix (lit "/d/c.DOCX")) = lit ".docx" \/
  ascii_lower (suffix (lit "/d/c.DOCX")) = lit ".xlsx".
Proof.
  destruct (C7_only_supported_extensions_queued ascii_lower libs_all) as [_ Q].
  apply (Q sample_session (lit "/d/c.DOCX")).
  right; right; left; reflexivity.
Defined.

Example unsupported_not_queued :
  mem (lit "/d/notes.txt") (queue_after ascii_lower libs_all sample_session)
  = false.
Proof. reflexivity. Qed.

Lemma fresh_length_lt queue found :
  (exists p, In p found /\ In p queue) ->
  length (fresh queue found) < length found.
Proof.
  intros (p & Hf & Hq). unfold fresh.
  induction found as [|x found IH]; [destruct Hf|].
  simpl. destruct (mem x queue) eqn:M; simpl.
  - pose proof (filter_length_le (fun p => negb (mem p queue)) found). lia.
  - destruct Hf as [->|Hf].
    + apply mem_In in Hq. congruence.
    + specialize (IH Hf). lia.
Qed.

(** C10: when an [add] command finds at least one supported file, it
    prints ["Added N files"] with [N] the number of supported files
    found, while the number of paths it appends is the number of found
    paths not queued before: at most [N], and less than [N] as soon as a
    found path was already queued. *)
Theorem C10_added_count_is_found_count
    (lower : str -> str) (queue : list Path) (fs : FS) (args : list str) :
  found_paths lower fs args <> [] ->
  let found := found_paths lower fs args in
  let queue' := fst (cmd_add lower queue fs args) in
  snd (cmd_add lower queue fs args)
  = [Print (lit "Added " ++ str_of_nat (length found) ++ lit " files")] /\
  length queue' = length queue + length (fresh queue found) /\
  length (fresh queue found) <= length found /\
  ((exists p, In p found /\ In p queue) ->
   length (fresh queue found) < length found).
Proof.
  intros Hf found queue'. subst found queue'. rewrite cmd_add_queue.
  split; [|split; [|split]].
  - unfold cmd_add. destruct args as [|a args]; [now elim Hf|].
    destruct (found_paths lower fs (a :: args)); [now elim Hf|]. reflexivity.
  - apply length_app.
  - apply filter_length_le.
  - apply fresh_length_lt.
Qed.

Lemma C10_added_count_is_found_count_witness :
  snd (cmd_add ascii_lower [lit "/d/a.pdf"] sample_fs [lit "*"])
  = [Print (lit "Added 3 files")] /\
  length (fst (cmd_add ascii_lower [lit "/d/a.pdf"] sample_fs [lit "*"]))
  = 1 + 2.
Proof.
  destruct (C10_added_count_is_found_count ascii_lower [lit "/d/a.pdf"]
              sample_fs [lit "*"] ltac:(discriminate)) as (P & N & _).
  split; [exact P|exact N].
Defined.

(** ** Startup *)




(** The environment of a session decides how it starts: with the
    default model the loop runs, with a model name the client does not
    know [main] raises before the banner, and an [add] whose match
    cannot be resolved raises out of the loop. *)
Example program_sample_runs :
  match program ascii_lower (fun e => e) libs_all sample_client
          sample_assemble sample_env sample_session with
  | Returned queue out =>
      queue = [lit "/d/b.pdf"; lit "/d/a.pdf"; lit "/d/c.DOCX"] /\
      firstn 6 out = banner /\ last out (Prompt []) = Print ([LF] ++ lit "Bye.")
  | _ => False
  end.
Proof. vm_compute. repeat split. Qed.

Example program_bogus_model :
  program ascii_lower (fun e => e) libs_all sample_client sample_assemble
    ((lit "CLAUDE_MODEL", lit "bogus-model") :: sample_env) sample_session
  = Crashed (lit "model_info is required when model name is not a valid Anthropic model") [].
Proof. reflexivity. Qed.

Example program_add_raises :
  program ascii_lower (fun e => e) libs_all sample_client sample_assemble
    sample_env
    [Line sample_fs (lit "add *.pdf");
     Raising sample_fs (lit "add ~$plan.docx")
       (lit "Could not determine home directory.");
     Line sample_fs (lit "list")]
  = Crashed (lit "Could not determine home directory.")
      (banner ++ [Prompt (lit "iec62304> "); Print (lit "Added 2 files");
                  Prompt (lit "iec62304> ")]).
Proof. reflexivity. Qed.

(** ** The two substitutions of [clean_text] *)

Lemma clean_text_unfold (s : str) :
  clean_text s = strip (sub_newlines (sub_blanks s)).
Proof. reflexivity. Qed.

Lemma plus_more_last (cs : char -> bool) (k : str -> option nat) (t : str) :
  (forall u, k u = Some O) ->
  plus_more cs k t = Some (length (take_while cs t)).
Proof.
  intros Hk. induction t as [|c t IH]; simpl; [apply Hk|].
  destruct (cs c); simpl; [now rewrite IH|apply Hk].
Qed.

(** A final [cs+] matches the longest run of [cs] at the head, if any. *)
Lemma match_at_plus (cs : char -> bool) (s : str) :
  match_at [(cs, Plus)] s
  = match take_while cs s with
    | [] => None
    | r => Some (length r)
    end.
Proof.
  destruct s as [|c t]; simpl; [reflexivity|].
  destruct (cs c); [|reflexivity].
  now rewrite plus_more_last.
Qed.

Lemma skipn_take_while (P : char -> bool) (s : str) :
  skipn (length (take_while P s)) s = drop_while P s.
Proof.
  induction s as [|c t IH]; simpl; [reflexivity|].
  destruct (P c); simpl; [assumption|reflexivity].
Qed.

Lemma take_while_length (P : char -> bool) (s : str) :
  length (take_while P s) <= length s.
Proof.
  induction s as [|c t IH]; simpl; [lia|]. destruct (P c); simpl; lia.
Qed.

Lemma drop_while_length (P : char -> bool) (s : str) :
  length (drop_while P s) <= length s.
Proof.
  induction s as [|c t IH]; simpl; [lia|]. destruct (P c); simpl; lia.
Qed.

(** Passing over the rest of a match is resuming after it. *)
Lemma re_sub_from_skip pat repl k :
  forall s, k <= length s ->
            re_sub_from pat repl k s = re_sub_from pat repl 0 (skipn k s).
Proof.
  induction k as [|k IH]; intros s Hk; [reflexivity|].
  destruct s as [|c t]; simpl in Hk; [lia|].
  simpl. apply IH. lia.
Qed.

(** *** [[ \t]+] *)

Lemma sub_blanks_nil : sub_blanks [] = [].
Proof. reflexivity. Qed.

Lemma sub_blanks_copy c t :
  is_blank c = false -> sub_blanks (c :: t) = c :: sub_blanks t.
Proof.
  intros H. unfold sub_blanks, re_sub.
  change (re_sub_from pat_blanks [SPACE] 0 (c :: t))
    with (match match_at pat_blanks (c :: t) with
          | Some (S k) => [SPACE] ++ re_sub_from pat_blanks [SPACE] k t
          | Some O => [SPACE] ++ c :: re_sub_from pat_blanks [SPACE] 0 t
          | None => c :: re_sub_from pat_blanks [SPACE] 0 t
          end).
  unfold pat_blanks. rewrite match_at_plus. simpl. now rewrite H.
Qed.

Lemma sub_blanks_run c t :
  is_blank c = true ->
  sub_blanks (c :: t) = SPACE :: sub_blanks (drop_while is_blank t).
Proof.
  intros H. unfold sub_blanks, re_sub.
  change (re_sub_from pat_blanks [SPACE] 0 (c :: t))
    with (match match_at pat_blanks (c :: t) with
          | Some (S k) => [SPACE] ++ re_sub_from pat_blanks [SPACE] k t
          | Some O => [SPACE] ++ c :: re_sub_from pat_blanks [SPACE] 0 t
          | None => c :: re_sub_from pat_blanks [SPACE] 0 t
          end).
  unfold pat_blanks. rewrite match_at_plus. simpl take_while. rewrite H.
  cbn [length app].
  rewrite re_sub_from_skip by apply take_while_length.
  now rewrite skipn_take_while.
Qed.

(** *** [\r?\n+] *)

Lemma take_while_nil_iff (P : char -> bool) (s : str) :
  take_while P s = [] <->
  match s with c :: _ => P c = false | [] => True end.
Proof.
  destruct s as [|c t]; simpl; [tauto|].
  destruct (P c); split; congruence.
Qed.

Lemma match_newlines_none c t :
  no_newline_match c t = true -> match_at pat_newlines (c :: t) = None.
Proof.
  unfold no_newline_match, pat_newlines. intros H.
  apply andb_true_iff in H. destruct H as [Hl Hc].
  apply negb_true_iff in Hl. apply negb_true_iff in Hc.
  change (match_at [(is_cr, Opt); (is_lf, Plus)] (c :: t))
    with (if is_cr c
          then match match_at [(is_lf, Plus)] t with
               | Some n => Some (S n)
               | None => match_at [(is_lf, Plus)] (c :: t)
               end
          else match_at [(is_lf, Plus)] (c :: t)).
  rewrite !match_at_plus. simpl take_while. rewrite Hl.
  destruct (is_cr c); [|reflexivity].
  simpl in Hc. destruct t as [|x t]; simpl in *; [reflexivity|].
  now rewrite Hc.
Qed.

Lemma match_newlines_lf c t :
  is_lf c = true ->
  match_at pat_newlines (c :: t) = Some (S (length (take_while is_lf t))).
Proof.
  intros Hl. unfold pat_newlines.
  assert (Hc : is_cr c = false).
  { unfold is_lf, is_cr, LF, CR in *. apply N.eqb_eq in Hl. now subst. }
  change (match_at [(is_cr, Opt); (is_lf, Plus)] (c :: t))
    with (if is_cr c
          then match match_at [(is_lf, Plus)] t with
               | Some n => Some (S n)
               | None => match_at [(is_lf, Plus)] (c :: t)
               end
          else match_at [(is_lf, Plus)] (c :: t)).
  rewrite Hc, match_at_plus. simpl. now rewrite Hl.
Qed.

Lemma match_newlines_crlf c x t :
  is_cr c = true -> is_lf x = true ->
  match_at pat_newlines (c :: x :: t)
  = Some (S (S (length (take_while is_lf t)))).
Proof.
  intros Hc Hl. unfold pat_newlines.
  change (match_at [(is_cr, Opt); (is_lf, Plus)] (c :: x :: t))
    with (if is_cr c
          then match match_at [(is_lf, Plus)] (x :: t) with
               | Some n => Some (S n)
               | None => match_at [(is_lf, Plus)] (c :: x :: t)
               end
          else match_at [(is_lf, Plus)] (c :: x :: t)).
  rewrite Hc, match_at_plus. simpl. now rewrite Hl.
Qed.

Lemma sub_newlines_nil : sub_newlines [] = [].
Proof. reflexivity. Qed.

Lemma sub_newlines_unfold c t :
  sub_newlines (c :: t)
  = match match_at pat_newlines (c :: t) with
    | Some (S k) => [LF] ++ re_sub_from pat_newlines [LF] k t
    | Some O => [LF] ++ c :: sub_newlines t
    | None => c :: sub_newlines t
    end.
Proof. reflexivity. Qed.

Lemma sub_newlines_copy c t :
  no_newline_match c t = true ->
  sub_newlines (c :: t) = c :: sub_newlines t.
Proof.
  intros H. rewrite sub_newlines_unfold. now rewrite match_newlines_none.
Qed.

Lemma sub_newlines_lf c t :
  is_lf c = true ->
  sub_newlines (c :: t) = LF :: sub_newlines (drop_while is_lf t).
Proof.
  intros H. rewrite sub_newlines_unfold, match_newlines_lf by assumption.
  rewrite re_sub_from_skip by apply take_while_length.
  now rewrite skipn_take_while.
Qed.

Lemma sub_newlines_crlf c x t :
  is_cr c = true -> is_lf x = true ->
  sub_newlines (c :: x :: t) = LF :: sub_newlines (drop_while is_lf t).
Proof.
  intros Hc Hl.
  rewrite sub_newlines_unfold, match_newlines_crlf by assumption.
  rewrite re_sub_from_skip by (simpl; pose proof (take_while_length is_lf t); lia).
  simpl skipn. now rewrite skipn_take_while.
Qed.

Example newlines_collapse :
  clean_text (lit "a" ++ [LF; LF; LF] ++ lit "b " ++ [SPACE; TAB] ++ lit "c"
              ++ [CR; LF; LF])
  = lit "a" ++ [LF] ++ lit "b c".
Proof. reflexivity. Qed.

(** ** What the substitutions leave *)

Lemma no_adjacent_cons P x r :
  no_adjacent P (x :: r) = true <->
  match r with [] => True | y :: _ => P x && P y = false end /\
  no_adjacent P r = true.
Proof.
  destruct r as [|y r]; [simpl; tauto|].
  change (no_adjacent P (x :: y :: r))
    with (negb (P x && P y) && no_adjacent P (y :: r)).
  rewrite andb_true_iff, negb_true_iff. reflexivity.
Qed.

Lemma no_adjacent_nth P s :
  no_adjacent P s = true ->
  forall i x y,
    nth_error s i = Some x -> nth_error s (S i) = Some y ->
    P x && P y = false.
Proof.
  induction s as [|a s IH]; intros H i x y Hx Hy.
  - destruct i; discriminate.
  - apply no_adjacent_cons in H. destruct H as [H1 H2].
    destruct i as [|i].
    + simpl in Hx, Hy. injection Hx as <-.
      destruct s as [|b s]; [discriminate|]. simpl in Hy.
      now injection Hy as <-.
    + simpl in Hx. change (nth_error s (S i) = Some y) in Hy. eauto.
Qed.

Lemma no_adjacent_app_r P a m :
  no_adjacent P (a ++ m) = true -> no_adjacent P m = true.
Proof.
  induction a as [|x a IH]; [trivial|].
  intros H. change ((x :: a) ++ m) with (x :: (a ++ m)) in H.
  apply no_adjacent_cons in H. tauto.
Qed.

Lemma no_adjacent_app_l P m b :
  no_adjacent P (m ++ b) = true -> no_adjacent P m = true.
Proof.
  induction m as [|x m IH]; [trivial|].
  intros H. change ((x :: m) ++ b) with (x :: (m ++ b)) in H.
  apply no_adjacent_cons in H. destruct H as [H1 H2].
  apply no_adjacent_cons. split; [|auto].
  destruct m; [trivial|exact H1].
Qed.

Lemma str_length_ind (P : str -> Prop) :
  (forall s, (forall t, length t < length s -> P t) -> P s) ->
  forall s, P s.
Proof.
  intros H s. remember (length s) as n eqn:E. revert s E.
  induction n as [n IH] using lt_wf_ind. intros s ->.
  apply H. intros t Ht. exact (IH _ Ht t eq_refl).
Qed.

Lemma drop_while_In (P : char -> bool) (s : str) x :
  In x (drop_while P s) -> In x s.
Proof.
  intros H. rewrite (take_drop_while P s). apply in_or_app. now right.
Qed.

Lemma is_blank_cases c : is_blank c = true -> c = SPACE \/ c = TAB.
Proof.
  unfold is_blank. rewrite orb_true_iff, !N.eqb_eq. tauto.
Qed.

Lemma is_lf_eq c : is_lf c = true <-> c = LF.
Proof. apply N.eqb_eq. Qed.

Lemma is_cr_eq c : is_cr c = true <-> c = CR.
Proof. apply N.eqb_eq. Qed.

(** After [[ \t]+ -> " "] no two blanks are neighbours. *)
Lemma sub_blanks_no_adjacent (s : str) :
  no_adjacent is_blank (sub_blanks s) = true.
Proof.
  induction s as [s IH] using str_length_ind.
  destruct s as [|c t]; [reflexivity|].
  destruct (is_blank c) eqn:B.
  - rewrite sub_blanks_run by assumption.
    apply no_adjacent_cons. split.
    + destruct (drop_while is_blank t) as [|c' t'] eqn:D; [exact I|].
      apply drop_while_head in D. rewrite sub_blanks_copy by assumption.
      now rewrite D, andb_false_r.
    + apply IH. simpl. pose proof (drop_while_length is_blank t). lia.
  - rewrite sub_blanks_copy by assumption.
    apply no_adjacent_cons. split.
    + destruct (sub_blanks t); [exact I|]. now rewrite B.
    + apply IH. simpl. lia.
Qed.

(** Its output holds spaces and the non-blank characters of its input. *)
Lemma sub_blanks_In (s : str) x :
  In x (sub_blanks s) -> x = SPACE \/ (In x s /\ is_blank x = false).
Proof.
  induction s as [s IH] using str_length_ind.
  destruct s as [|c t]; [intros []|].
  destruct (is_blank c) eqn:B.
  - rewrite sub_blanks_run by assumption. intros [<-|H]; [now left|].
    apply IH in H.
    + destruct H as [H|[H1 H2]]; [now left|right].
      split; [right; eapply drop_while_In; eassumption|assumption].
    + simpl. pose proof (drop_while_length is_blank t). lia.
  - rewrite sub_blanks_copy by assumption. intros [<-|H].
    + right. split; [now left|assumption].
    + apply IH in H; [|simpl; lia].
      destruct H as [H|[H1 H2]]; [now left|right]. split; [now right|assumption].
Qed.

(** How [\r?\n+ -> "\n"] treats the head of its input. *)
Lemma sub_newlines_cases c t :
  (no_newline_match c t = true /\
   sub_newlines (c :: t) = c :: sub_newlines t) \/
  (exists d, (c = LF \/ c = CR) /\ length d <= length t /\
             (forall x, In x d -> In x t) /\
             (exists a, t = a ++ d) /\
             match d with [] => True | y :: _ => is_lf y = false end /\
             (c = LF -> d = drop_while is_lf t) /\
             sub_newlines (c :: t) = LF :: sub_newlines d).
Proof.
  destruct (is_lf c) eqn:Hl.
  - right. exists (drop_while is_lf t).
    split; [left; now apply is_lf_eq|].
    split; [apply drop_while_length|].
    split; [intros x; apply drop_while_In|].
    split; [exists (take_while is_lf t); apply take_drop_while|].
    split.
    { destruct (drop_while is_lf t) eqn:D; [exact I|].
      eapply drop_while_head; eassumption. }
    split; [reflexivity|now apply sub_newlines_lf].
  - destruct (is_cr c && starts_with_lf t) eqn:Hc.
    + apply andb_true_iff in Hc. destruct Hc as [Hc Hs].
      destruct t as [|x t]; [discriminate|]. simpl in Hs.
      right. exists (drop_while is_lf t).
      split; [right; now apply is_cr_eq|].
      split; [simpl; pose proof (drop_while_length is_lf t); lia|].
      split; [intros y Hy; right; eapply drop_while_In; eassumption|].
      split.
      { exists (x :: take_while is_lf t). simpl. f_equal.
        apply take_drop_while. }
      split.
      { destruct (drop_while is_lf t) eqn:D; [exact I|].
        eapply drop_while_head; eassumption. }
      split.
      { intros ->. discriminate. }
      now apply sub_newlines_crlf.
    + left. assert (N : no_newline_match c t = true).
      { unfold no_newline_match. now rewrite Hl, Hc. }
      split; [assumption|now apply sub_newlines_copy].
Qed.

(** Its output holds newlines and characters of its input. *)
Lemma sub_newlines_In (s : str) x :
  In x (sub_newlines s) -> x = LF \/ In x s.
Proof.
  induction s as [s IH] using str_length_ind.
  destruct s as [|c t]; [intros []|].
  destruct (sub_newlines_cases c t)
    as [[_ E]|(d & _ & Hlen & Hin & _ & _ & _ & E)]; rewrite E.
  - intros [<-|H]; [right; now left|].
    apply IH in H; [|simpl; lia]. destruct H; [now left|right; now right].
  - intros [<-|H]; [now left|].
    apply IH in H; [|simpl; lia].
    destruct H; [now left|right; right; auto].
Qed.

(** It brings no two characters of a set without the newline side by
    side, and a character of the set at the head of its output was at
    the head of its input. *)
Lemma sub_newlines_keeps (Q : char -> bool) (s : str) :
  Q LF = false ->
  no_adjacent Q s = true ->
  no_adjacent Q (sub_newlines s) = true /\
  (forall x r, sub_newlines s = x :: r -> Q x = true -> exists t, s = x :: t).
Proof.
  intros HQ. induction s as [s IH] using str_length_ind. intros H.
  destruct s as [|c t]; [split; [reflexivity|discriminate]|].
  pose proof H as H'. apply no_adjacent_cons in H'. destruct H' as [H1 H2].
  destruct (sub_newlines_cases c t)
    as [[_ E]|(d & _ & Hlen & _ & [a Ha] & _ & _ & E)]; rewrite E.
  - destruct (IH t ltac:(simpl; lia) H2) as [N Hd]. split.
    + apply no_adjacent_cons. split; [|assumption].
      destruct (sub_newlines t) as [|y r] eqn:S; [exact I|].
      destruct (Q y) eqn:Qy; [|apply andb_false_r].
      destruct (Hd y r eq_refl Qy) as [t' ->]. rewrite <- Qy. exact H1.
    + intros x r [= <- _] _. eauto.
  - assert (Nd : no_adjacent Q d = true).
    { subst t. eapply no_adjacent_app_r; eassumption. }
    destruct (IH d ltac:(simpl; lia) Nd) as [N _]. split.
    + apply no_adjacent_cons. split; [|assumption].
      destruct (sub_newlines d); [exact I|]. now rewrite HQ.
    + intros x r [= <- _] Qx. congruence.
Qed.

(** Without carriage returns in the input, no two newlines are
    neighbours in its output. *)
Lemma sub_newlines_no_adjacent (s : str) :
  ~ In CR s -> no_adjacent is_lf (sub_newlines s) = true.
Proof.
  induction s as [s IH] using str_length_ind. intros H.
  destruct s as [|c t]; [reflexivity|].
  assert (Ht : ~ In CR t) by (intros F; apply H; now right).
  assert (Hc : c <> CR) by (intros F; apply H; now left).
  destruct (sub_newlines_cases c t)
    as [[M E]|(d & Hcd & Hlen & Hin & _ & Hd & _ & E)]; rewrite E.
  - apply no_adjacent_cons. split; [|apply IH; [simpl; lia|assumption]].
    destruct (sub_newlines t); [exact I|].
    unfold no_newline_match in M. apply andb_true_iff in M.
    destruct M as [M _]. apply negb_true_iff in M. now rewrite M.
  - assert (Hnd : ~ In CR d) by (intros F; apply Ht; auto).
    apply no_adjacent_cons. split; [|apply IH; [simpl; lia|assumption]].
    destruct d as [|y d']; [exact I|].
    assert (M : no_newline_match y d' = true).
    { unfold no_newline_match. rewrite Hd. simpl.
      destruct (is_cr y) eqn:C; [|reflexivity].
      apply is_cr_eq in C. subst y. elim Hnd. now left. }
    rewrite sub_newlines_copy by assumption. rewrite Hd. apply andb_false_r.
Qed.

(** ** Strings the substitutions leave alone *)

Lemma sub_blanks_fixed (s : str) :
  ~ In TAB s -> no_adjacent is_blank s = true -> sub_blanks s = s.
Proof.
  induction s as [|c t IH]; intros HT H; [reflexivity|].
  apply no_adjacent_cons in H. destruct H as [H1 H2].
  assert (IHt : sub_blanks t = t).
  { apply IH; [|assumption]. intros F. apply HT. now right. }
  destruct (is_blank c) eqn:B.
  - rewrite sub_blanks_run by assumption.
    destruct (is_blank_cases c B) as [->| ->]; [|elim HT; now left].
    rewrite drop_while_id; [now rewrite IHt|].
    destruct t as [|y t]; [exact I|]. exact H1.
  - rewrite sub_blanks_copy by assumption. now rewrite IHt.
Qed.

Lemma sub_newlines_fixed (s : str) :
  ~ In CR s -> no_adjacent is_lf s = true -> sub_newlines s = s.
Proof.
  induction s as [|c t IH]; intros HC H; [reflexivity|].
  apply no_adjacent_cons in H. destruct H as [H1 H2].
  assert (IHt : sub_newlines t = t).
  { apply IH; [|assumption]. intros F. apply HC. now right. }
  destruct (is_lf c) eqn:B.
  - rewrite sub_newlines_lf by assumption.
    apply is_lf_eq in B. subst c.
    rewrite drop_while_id; [now rewrite IHt|].
    destruct t as [|y t]; [exact I|]. exact H1.
  - rewrite sub_newlines_copy; [now rewrite IHt|].
    unfold no_newline_match. rewrite B.
    destruct (is_cr c) eqn:C; [|reflexivity].
    apply is_cr_eq in C. elim HC. now left.
Qed.

Lemma strip_fixed (s : str) :
  match s with [] => True | c :: _ => is_space c = false end ->
  match rev s with [] => True | c :: _ => is_space c = false end ->
  strip s = s.
Proof.
  intros Hh Hl. unfold strip, lstrip, rstrip.
  rewrite (drop_while_id is_space s Hh).
  rewrite (drop_while_id is_space (rev s) Hl). apply rev_involutive.
Qed.

Lemma strip_strip (s : str) : strip (strip s) = strip s.
Proof.
  apply strip_fixed.
  - destruct (strip s) eqn:E; [exact I|]. eapply strip_head; eassumption.
  - destruct (rev (strip s)) eqn:E; [exact I|]. eapply strip_last; eassumption.
Qed.

Lemma strip_In (s : str) x : In x (strip s) -> In x s.
Proof.
  destruct (strip_infix s) as (a & b & E). intros H. rewrite E.
  apply in_or_app. right. apply in_or_app. now left.
Qed.

Lemma strip_no_adjacent P (s : str) :
  no_adjacent P s = true -> no_adjacent P (strip s) = true.
Proof.
  destruct (strip_infix s) as (a & b & E). intros H. rewrite E in H.
  apply no_adjacent_app_r in H. now apply no_adjacent_app_l in H.
Qed.

(** ** [clean_text] *)

Lemma clean_text_blanks (s : str) :
  no_adjacent is_blank (clean_text s) = true.
Proof.
  rewrite clean_text_unfold. apply strip_no_adjacent.
  apply sub_newlines_keeps; [reflexivity|apply sub_blanks_no_adjacent].
Qed.

Lemma clean_text_no_tab (s : str) : ~ In TAB (clean_text s).
Proof.
  rewrite clean_text_unfold. intros H. apply strip_In in H.
  apply sub_newlines_In in H. destruct H as [H|H]; [discriminate|].
  apply sub_blanks_In in H. destruct H as [H|[_ H]]; discriminate.
Qed.

Lemma clean_text_no_cr (s : str) : ~ In CR s -> ~ In CR (clean_text s).
Proof.
  rewrite clean_text_unfold. intros Hs H. apply strip_In in H.
  apply sub_newlines_In in H. destruct H as [H|H]; [discriminate|].
  apply sub_blanks_In in H. destruct H as [H|[H _]]; [discriminate|auto].
Qed.

Lemma clean_text_newlines (s : str) :
  ~ In CR s -> no_adjacent is_lf (clean_text s) = true.
Proof.
  intros Hs. rewrite clean_text_unfold. apply strip_no_adjacent.
  apply sub_newlines_no_adjacent. intros H.
  apply sub_blanks_In in H. destruct H as [H|[H _]]; [discriminate|auto].
Qed.

(** C5, as amended: for every input string, the output of [clean_text]
    has no two consecutive characters that are spaces or tabs, and has
    no leading or trailing whitespace; and when the input holds no
    carriage return, the output has no two consecutive newline
    characters.  (A line made of a single space can remain.) *)
Theorem C5_clean_text_normalised (text : str) :
  (forall i x y,
      nth_error (clean_text text) i = Some x ->
      nth_error (clean_text text) (S i) = Some y ->
      ~ (is_blank x = true /\ is_blank y = true)) /\
  (forall c t, clean_text text = c :: t -> is_space c = false) /\
  (forall c t, rev (clean_text text) = c :: t -> is_space c = false) /\
  (~ In CR text ->
   forall i,
     nth_error (clean_text text) i = Some LF ->
     nth_error (clean_text text) (S i) <> Some LF).
Proof.
  split; [|split; [|split]].
  - intros i x y Hx Hy [Bx By].
    pose proof (no_adjacent_nth is_blank _ (clean_text_blanks text) i x y Hx Hy)
      as H.
    rewrite Bx, By in H. discriminate.
  - intros c t. apply strip_head.
  - intros c t. apply strip_last.
  - intros Hcr i Hx Hy.
    pose proof (no_adjacent_nth is_lf _ (clean_text_newlines text Hcr)
                  i LF LF Hx Hy) as H.
    discriminate.
Qed.

Example clean_text_messy :
  clean_text messy_text
  = lit "Scope of use" ++ [LF] ++ lit "Class B".
Proof. reflexivity. Qed.

Lemma C5_clean_text_normalised_witness :
  nth_error (clean_text messy_text) 12 = Some LF /\
  nth_error (clean_text messy_text) 13 <> Some LF.
Proof.
  destruct (C5_clean_text_normalised messy_text) as (_ & _ & _ & H).
  split; [reflexivity|].
  apply H; [|reflexivity].
  vm_compute. intros F.
  repeat (destruct F as [F|F]; [discriminate F|]). exact F.
Defined.

(** C5 as stated fails on lines made of whitespace only: in
    ["a\n \nb"] the single space between the two newlines is neither a
    run of blanks nor part of a run of newlines, and the text comes back
    unchanged, its second line holding only a space. *)
Lemma C5_counterexample :
  clean_text (lit "a" ++ [LF; SPACE; LF] ++ lit "b")
  = lit "a" ++ [LF; SPACE; LF] ++ lit "b" /\
  text_lines (clean_text (lit "a" ++ [LF; SPACE; LF] ++ lit "b"))
  = [lit "a"; [SPACE]; lit "b"] /\
  ~ (forall line,
        In line (text_lines (clean_text (lit "a" ++ [LF; SPACE; LF] ++ lit "b"))) ->
        forallb is_space line = false).
Proof.
  split; [reflexivity|]. split; [reflexivity|].
  intros H. specialize (H [SPACE] ltac:(right; left; reflexivity)).
  discriminate H.
Qed.

(** With carriage returns the newline pattern can leave two newlines
    side by side: in ["a\r\n\r\nb"] each [\r\n] is a match of its own. *)
Example clean_text_crlf_pairs :
  clean_text (lit "a" ++ [CR; LF; CR; LF] ++ lit "b")
  = lit "a" ++ [LF; LF] ++ lit "b".
Proof. reflexivity. Qed.

(** C9, as amended: on every string without a carriage return,
    [clean_text] is idempotent. *)
Theorem C9_clean_text_idempotent (s : str) :
  ~ In CR s -> clean_text (clean_text s) = clean_text s.
Proof.
  intros Hs. rewrite (clean_text_unfold (clean_text s)).
  rewrite sub_blanks_fixed
    by (apply clean_text_no_tab || apply clean_text_blanks).
  rewrite sub_newlines_fixed
    by (now apply clean_text_no_cr || now apply clean_text_newlines).
  rewrite clean_text_unfold. apply strip_strip.
Qed.

Lemma C9_clean_text_idempotent_witness :
  clean_text (clean_text messy_text) = clean_text messy_text.
Proof.
  apply (C9_clean_text_idempotent messy_text).
  vm_compute. intros F.
  repeat (destruct F as [F|F]; [discriminate F|]). exact F.
Defined.

(** C9 as stated fails on a carriage return that precedes a [\r\n]:
    ["a\r\r\nb"] becomes ["a\r\nb"], which a second pass turns into
    ["a\nb"]. *)
Lemma C9_counterexample :
  clean_text (lit "a" ++ [CR; CR; LF] ++ lit "b")
  = lit "a" ++ [CR; LF] ++ lit "b" /\
  clean_text (clean_text (lit "a" ++ [CR; CR; LF] ++ lit "b"))
  = lit "a" ++ [LF] ++ lit "b" /\
  clean_text (clean_text (lit "a" ++ [CR; CR; LF] ++ lit "b"))
  <> clean_text (lit "a" ++ [CR; CR; LF] ++ lit "b").
Proof.
  split; [reflexivity|]. split; [reflexivity|]. discriminate.
Qed.

(** * Further properties of the code *)

(** ** [clean_text]: length and content *)

Lemma sub_blanks_length (s : str) : length (sub_blanks s) <= length s.
Proof.
  induction s as [s IH] using str_length_ind.
  destruct s as [|c t]; [reflexivity|].
  destruct (is_blank c) eqn:B.
  - rewrite sub_blanks_run by assumption. simpl.
    pose proof (drop_while_length is_blank t) as D.
    specialize (IH (drop_while is_blank t) ltac:(simpl; lia)). lia.
  - rewrite sub_blanks_copy by assumption. simpl.
    specialize (IH t ltac:(simpl; lia)). lia.
Qed.

Lemma sub_newlines_length (s : str) : length (sub_newlines s) <= length s.
Proof.
  induction s as [s IH] using str_length_ind.
  destruct s as [|c t]; [reflexivity|].
  destruct (sub_newlines_cases c t)
    as [[_ E]|(d & _ & Hlen & _ & _ & _ & _ & E)]; rewrite E; simpl.
  - specialize (IH t ltac:(simpl; lia)). lia.
  - specialize (IH d ltac:(simpl; lia)). lia.
Qed.

Lemma strip_length (s : str) : length (strip s) <= length s.
Proof.
  destruct (strip_infix s) as (a & b & E). rewrite E at 2.
  rewrite !length_app. lia.
Qed.

(** X1: [clean_text] never lengthens a text. *)
Theorem X1_clean_text_never_longer (s : str) :
  length (clean_text s) <= length s.
Proof.
  rewrite clean_text_unfold.
  pose proof (strip_length (sub_newlines (sub_blanks s))).
  pose proof (sub_newlines_length (sub_blanks s)).
  pose proof (sub_blanks_length s). lia.
Qed.

Lemma is_blank_space c : is_blank c = true -> is_space c = true.
Proof. intros H. destruct (is_blank_cases c H) as [-> | ->]; reflexivity. Qed.

Lemma is_lf_space c : is_lf c = true -> is_space c = true.
Proof. intros H. apply is_lf_eq in H. now subst. Qed.

Lemma is_cr_space c : is_cr c = true -> is_space c = true.
Proof. intros H. apply is_cr_eq in H. now subst. Qed.

Lemma visible_cons_space c t : is_space c = true -> visible (c :: t) = visible t.
Proof. intros H. unfold visible. simpl. now rewrite H. Qed.

Lemma visible_cons_other c t :
  is_space c = false -> visible (c :: t) = c :: visible t.
Proof. intros H. unfold visible. simpl. now rewrite H. Qed.

Lemma visible_cons_same c t t' :
  visible t = visible t' -> visible (c :: t) = visible (c :: t').
Proof. unfold visible. simpl. intros ->. reflexivity. Qed.

Lemma visible_drop_while (P : char -> bool) (s : str) :
  (forall c, P c = true -> is_space c = true) ->
  visible (drop_while P s) = visible s.
Proof.
  intros HP. induction s as [|c t IH]; [reflexivity|]. cbn [drop_while].
  destruct (P c) eqn:E; [|reflexivity].
  rewrite (visible_cons_space c t) by auto. exact IH.
Qed.

Lemma visible_rev (s : str) : visible (rev s) = rev (visible s).
Proof.
  unfold visible. induction s as [|c t IH]; [reflexivity|]. simpl.
  rewrite filter_app, IH. simpl.
  destruct (is_space c); simpl; [now rewrite app_nil_r|reflexivity].
Qed.

Lemma visible_strip (s : str) : visible (strip s) = visible s.
Proof.
  unfold strip, rstrip, lstrip.
  rewrite visible_rev, visible_drop_while by trivial.
  rewrite visible_rev, rev_involutive.
  now apply visible_drop_while.
Qed.

Lemma visible_sub_blanks (s : str) : visible (sub_blanks s) = visible s.
Proof.
  induction s as [s IH] using str_length_ind.
  destruct s as [|c t]; [reflexivity|].
  destruct (is_blank c) eqn:B.
  - rewrite sub_blanks_run by assumption.
    rewrite !visible_cons_space by (reflexivity || now apply is_blank_space).
    rewrite IH by (simpl; pose proof (drop_while_length is_blank t); lia).
    apply visible_drop_while, is_blank_space.
  - rewrite sub_blanks_copy by assumption.
    apply visible_cons_same, IH. simpl. lia.
Qed.

Lemma visible_sub_newlines (s : str) : visible (sub_newlines s) = visible s.
Proof.
  induction s as [s IH] using str_length_ind.
  destruct s as [|c t]; [reflexivity|].
  destruct (is_lf c) eqn:Hl.
  - rewrite sub_newlines_lf by assumption.
    rewrite !visible_cons_space by (reflexivity || now apply is_lf_space).
    rewrite IH by (simpl; pose proof (drop_while_length is_lf t); lia).
    apply visible_drop_while, is_lf_space.
  - destruct (is_cr c && starts_with_lf t) eqn:Hc.
    + apply andb_true_iff in Hc. destruct Hc as [Hc Hs].
      destruct t as [|x t]; [discriminate|]. simpl in Hs.
      rewrite sub_newlines_crlf by assumption.
      rewrite (visible_cons_space c) by now apply is_cr_space.
      rewrite (visible_cons_space x) by now apply is_lf_space.
      rewrite visible_cons_space by reflexivity.
      rewrite IH by (simpl; pose proof (drop_while_length is_lf t); lia).
      apply visible_drop_while, is_lf_space.
    + rewrite sub_newlines_copy
        by (unfold no_newline_match; now rewrite Hl, Hc).
      apply visible_cons_same, IH. simpl. lia.
Qed.

Lemma visible_clean_text (s : str) : visible (clean_text s) = visible s.
Proof.
  rewrite clean_text_unfold, visible_strip, visible_sub_newlines.
  apply visible_sub_blanks.
Qed.

(** X2: [clean_text] touches whitespace only: the characters of a text
    that are not whitespace come out all, unchanged and in their
    order. *)
Theorem X2_clean_text_keeps_visible_characters (s : str) :
  visible (clean_text s) = visible s.
Proof.
  rewrite clean_text_unfold.
  rewrite visible_strip, visible_sub_newlines.
  apply visible_sub_blanks.
Qed.

Lemma visible_nil_iff (s : str) :
  visible s = [] <-> forallb is_space s = true.
Proof.
  unfold visible. induction s as [|c t IH]; simpl; [tauto|].
  destruct (is_space c); simpl; [exact IH|].
  split; discriminate.
Qed.

(** X3: [clean_text] returns the empty string exactly for the texts
    made of whitespace only (the empty text among them). *)
Theorem X3_clean_text_empty_iff_blank (s : str) :
  clean_text s = [] <-> forallb is_space s = true.
Proof.
  rewrite <- visible_nil_iff, <- (visible_clean_text s). split.
  - intros ->. reflexivity.
  - intros H. destruct (clean_text s) as [|c t] eqn:E; [reflexivity|].
    pose proof E as E'. rewrite clean_text_unfold in E'.
    apply strip_head in E'.
    rewrite visible_cons_other in H by assumption. discriminate.
Qed.

Lemma no_adjacent_true_nth P s :
  (forall i x y,
      nth_error s i = Some x -> nth_error s (S i) = Some y ->
      P x && P y = false) ->
  no_adjacent P s = true.
Proof.
  induction s as [|a s IH]; intros H; [reflexivity|].
  apply no_adjacent_cons. split.
  - destruct s as [|b s]; [exact I|]. apply (H 0); reflexivity.
  - apply IH. intros i x y Hx Hy. apply (H (S i)); assumption.
Qed.

(** X4: among the texts without carriage return, the fixed points of
    [clean_text] are the normalised ones: no tab, no two blanks and no
    two newlines side by side, no whitespace at either end. *)
Theorem X4_clean_text_fixed_points (s : str) :
  ~ In CR s -> (clean_text s = s <-> normalised s).
Proof.
  intros Hcr. split.
  - intros E. unfold normalised. rewrite <- E.
    split; [apply clean_text_no_tab|].
    split; [apply clean_text_blanks|].
    split; [now apply clean_text_newlines|].
    split; intros c t; [apply strip_head|apply strip_last].
  - intros (HT & HB & HL & Hh & Hl).
    rewrite clean_text_unfold.
    rewrite sub_blanks_fixed, sub_newlines_fixed by assumption.
    apply strip_fixed.
    + destruct s as [|c t]; [exact I|]. eapply Hh; reflexivity.
    + destruct (rev s) as [|c t] eqn:R; [exact I|]. eapply Hl; reflexivity.
Qed.

Lemma X4_clean_text_fixed_points_witness :
  clean_text (lit "Scope of use" ++ [LF] ++ lit "Class B")
  = lit "Scope of use" ++ [LF] ++ lit "Class B".
Proof.
  apply (X4_clean_text_fixed_points
           (lit "Scope of use" ++ [LF] ++ lit "Class B")).
  - vm_compute. intros F.
    repeat (destruct F as [F|F]; [discriminate F|]). exact F.
  - unfold normalised. split.
    + vm_compute. intros F.
      repeat (destruct F as [F|F]; [discriminate F|]). exact F.
    + split; [reflexivity|]. split; [reflexivity|].
      split; intros c t E; vm_compute in E; injection E as <- _; reflexivity.
Defined.

(** ** The readers: shape of an excerpt, pages never read *)

Lemma slice_to_prefix (n : Z) (s : str) : exists b, s = slice_to n s ++ b.
Proof.
  unfold slice_to. destruct (0 <=? n)%Z; eexists; symmetry; apply firstn_skipn.
Qed.

(** A prefix of a cleaned text has no tab, no two blanks side by side
    and no whitespace in front. *)
Lemma clean_prefix_shape (text s b : str) :
  clean_text text = s ++ b ->
  ~ In TAB s /\ no_adjacent is_blank s = true /\
  (forall c t, s = c :: t -> is_space c = false).
Proof.
  intros E. split; [|split].
  - intros H. apply (clean_text_no_tab text). rewrite E.
    apply in_or_app. now left.
  - apply (no_adjacent_app_l is_blank s b). rewrite <- E.
    apply clean_text_blanks.
  - intros c t ->. rewrite clean_text_unfold in E. simpl in E.
    eapply strip_head; eassumption.
Qed.

Lemma read_pdf_body_prefix rd p max_chars s :
  read_pdf_body rd p max_chars = Ok s ->
  exists text b, clean_text text = s ++ b.
Proof.
  unfold read_pdf_body.
  destruct (rd p) as [pages|e]; cbn [bind]; [|discriminate].
  destruct (pdf_pages max_chars 0 (firstn 10 pages) []) as [texts|e];
    cbn [bind]; [|discriminate].
  intros [= <-].
  destruct (slice_to_prefix max_chars (clean_text (join [LF] texts))) as [b Hb].
  eauto.
Qed.

Lemma read_docx_body_prefix doc p max_chars s :
  read_docx_body doc p max_chars = Ok s ->
  exists text b, clean_text text = s ++ b.
Proof.
  unfold read_docx_body.
  destruct (doc p) as [paragraphs|e]; cbn [bind]; [|discriminate].
  intros [= <-].
  match goal with
  | |- context [slice_to max_chars (clean_text ?x)] =>
      destruct (slice_to_prefix max_chars (clean_text x)) as [b Hb]
  end.
  eauto.
Qed.

Lemma read_xlsx_body_prefix wb p max_chars s :
  read_xlsx_body wb p max_chars = Ok s ->
  exists text b, clean_text text = s ++ b.
Proof.
  unfold read_xlsx_body.
  destruct (wb p) as [worksheets|e]; cbn [bind]; [|discriminate].
  destruct (xlsx_sheets max_chars (firstn 3 worksheets) []) as [parts|e];
    cbn [bind]; [|discriminate].
  intros [= <-].
  destruct (slice_to_prefix max_chars (clean_text (join [LF] parts))) as [b Hb].
  eauto.
Qed.

(** X5: whatever the budget, a text extracted without exception by
    [read_pdf], [read_docx] or [read_xlsx] is the beginning of a cleaned
    text: it holds no tab and no two consecutive spaces, and it does not
    start with whitespace.  (Truncation can leave a space at its end.) *)
Theorem X5_excerpt_is_cleaned_prefix
    (rd : Path -> result (list page)) (doc : Path -> result (list str))
    (wb : Path -> result (list worksheet)) (p : Path) (max_chars : Z)
    (s : str) :
  read_pdf_body rd p max_chars = Ok s \/
  read_docx_body doc p max_chars = Ok s \/
  read_xlsx_body wb p max_chars = Ok s ->
  ~ In TAB s /\ no_adjacent is_blank s = true /\
  (forall c t, s = c :: t -> is_space c = false).
Proof.
  intros [H|[H|H]].
  - destruct (read_pdf_body_prefix _ _ _ _ H) as (text & b & E).
    eapply clean_prefix_shape; eassumption.
  - destruct (read_docx_body_prefix _ _ _ _ H) as (text & b & E).
    eapply clean_prefix_shape; eassumption.
  - destruct (read_xlsx_body_prefix _ _ _ _ H) as (text & b & E).
    eapply clean_prefix_shape; eassumption.
Qed.

Lemma X5_excerpt_is_cleaned_prefix_witness :
  ~ In TAB (lit "Scope" ++ [LF] ++ lit "Design ") /\
  no_adjacent is_blank (lit "Scope" ++ [LF] ++ lit "Design ") = true /\
  (forall c t, lit "Scope" ++ [LF] ++ lit "Design " = c :: t ->
               is_space c = false).
Proof.
  apply (X5_excerpt_is_cleaned_prefix
           (fun _ => Ok sample_pdf)
           (fun _ => Ok [lit " Scope "; lit "   "; lit "Design  notes"])
           (fun _ => Ok [sample_sheet]) (lit "/d/a.docx") 13).
  right; left; reflexivity.
Defined.

(** Once the collected texts exceed the budget the loop has stopped:
    pages that follow are not read. *)
Lemma pdf_pages_stop (max_chars : Z) (rest : list page) (pre : list page) :
  forall i acc texts,
    (sum_len acc <= max_chars)%Z ->
    pdf_pages max_chars i pre acc = Ok texts ->
    (sum_len texts > max_chars)%Z ->
    pdf_pages max_chars i (pre ++ rest) acc = Ok texts.
Proof.
  induction pre as [|pg pre IH]; intros i acc texts Hacc H Hgt.
  - simpl in H. injection H as <-. lia.
  - change ((pg :: pre) ++ rest) with (pg :: (pre ++ rest)).
    cbn [pdf_pages] in *.
    destruct (extract_text pg) as [x|e]; cbn [bind] in *; [|discriminate].
    destruct (strip match x with Some t => t | None => [] end) as [|c t].
    + now apply IH.
    + match goal with
      | |- context [(sum_len ?a >? max_chars)%Z] =>
          destruct (sum_len a >? max_chars)%Z eqn:G
      end.
      * exact H.
      * apply IH; [|assumption|assumption].
        rewrite Z.gtb_ltb in G. apply Z.ltb_ge in G. exact G.
Qed.

(** X6: [read_pdf] stops reading when the texts collected exceed the
    budget: if the first pages of a document alone carry the collected
    texts past [max_chars], the pages after them do not count, be they
    pages whose extraction raises. *)
Theorem X6_read_pdf_stops_at_budget
    (L L' : libs) (rd rd' : Path -> result (list page)) (p : Path)
    (max_chars : Z) (pre rest : list page) (texts : list str) :
  (0 <= max_chars)%Z ->
  PdfReader L = Some rd -> PdfReader L' = Some rd' ->
  rd p = Ok pre -> rd' p = Ok (pre ++ rest) ->
  pdf_pages max_chars 0 (firstn 10 pre) [] = Ok texts ->
  (sum_len texts > max_chars)%Z ->
  read_pdf L' p max_chars = read_pdf L p max_chars /\
  read_pdf L p max_chars
  = Ok (slice_to max_chars (clean_text (join [LF] texts))).
Proof.
  intros Hm HL HL' Hrd Hrd' Hpre Hgt.
  unfold read_pdf, read_pdf_body. rewrite HL, HL', Hrd, Hrd'. cbn [bind].
  rewrite firstn_app.
  rewrite (pdf_pages_stop max_chars _ (firstn 10 pre) 0 [] texts)
    by (assumption || (simpl; lia)).
  rewrite Hpre. split; reflexivity.
Qed.

Lemma X6_read_pdf_stops_at_budget_witness :
  read_pdf libs_bad_tail (lit "/d/a.pdf") 30
  = read_pdf libs_all (lit "/d/a.pdf") 30.
Proof.
  refine (proj1 (X6_read_pdf_stops_at_budget libs_all libs_bad_tail _ _
                   (lit "/d/a.pdf") 30 sample_pdf [bad_page]
                   [lit "[p1] Software   requirements";
                    lit "[p3] Risk analysis"]
                   _ eq_refl eq_refl eq_refl eq_refl eq_refl _));
    [lia|reflexivity].
Defined.

Lemma slice_to_nil (n : Z) : slice_to n [] = [].
Proof. unfold slice_to. destruct (0 <=? n)%Z; apply firstn_nil. Qed.

Lemma pdf_pages_blank (max_chars : Z) (pages : list page) :
  (forall pg, In pg pages ->
              exists x, extract_text pg = Ok x /\
                        strip (match x with Some t => t | None => [] end) = []) ->
  forall i acc, pdf_pages max_chars i pages acc = Ok acc.
Proof.
  induction pages as [|pg pages IH]; intros H i acc; [reflexivity|].
  cbn [pdf_pages]. destruct (H pg (or_introl eq_refl)) as (x & -> & E).
  cbn [bind]. rewrite E. apply IH. intros pg' H'. apply H. now right.
Qed.

Lemma xlsx_sheets_empty (max_chars : Z) (wss : list worksheet) :
  (forall ws, In ws wss -> ws_rows ws = []) ->
  forall parts, xlsx_sheets max_chars wss parts = Ok parts.
Proof.
  induction wss as [|ws wss IH]; intros H parts; [reflexivity|].
  cbn [xlsx_sheets]. unfold iter_rows. rewrite (H ws (or_introl eq_refl)).
  rewrite firstn_nil. cbn [xlsx_rows bind]. apply IH.
  intros ws' H'. apply H. now right.
Qed.

Lemma filter_all_false {A : Type} (f : A -> bool) (l : list A) :
  (forall x, In x l -> f x = false) -> filter f l = [].
Proof.
  induction l as [|a l IH]; intros H; [reflexivity|]. simpl.
  rewrite (H a (or_introl eq_refl)). apply IH. intros x Hx. apply H. now right.
Qed.

(** X7: a document without text gives the empty excerpt, not a
    placeholder: a PDF whose first ten pages extract to nothing ([None],
    the empty string or whitespace), a DOCX whose paragraphs are all
    blank, a workbook whose first three sheets have no row. *)
Theorem X7_empty_document_empty_excerpt (L : libs) (p : Path) (max_chars : Z) :
  (forall rd pages,
      PdfReader L = Some rd -> rd p = Ok pages ->
      (forall pg, In pg (firstn 10 pages) ->
                  exists x, extract_text pg = Ok x /\
                            strip (match x with Some t => t | None => [] end)
                            = []) ->
      read_pdf L p max_chars = Ok []) /\
  (forall doc paragraphs,
      docx L = Some doc -> doc p = Ok paragraphs ->
      (forall t, In t paragraphs -> strip t = []) ->
      read_docx L p max_chars = Ok []) /\
  (forall wb worksheets,
      openpyxl L = Some wb -> wb p = Ok worksheets ->
      (forall ws, In ws (firstn 3 worksheets) -> ws_rows ws = []) ->
      read_xlsx L p max_chars = Ok []).
Proof.
  split; [|split].
  - intros rd pages HL Hrd H. unfold read_pdf, read_pdf_body.
    rewrite HL, Hrd. cbn [bind].
    rewrite (pdf_pages_blank max_chars _ H). cbn [bind try_except join].
    change (clean_text []) with (@nil char). now rewrite slice_to_nil.
  - intros doc paragraphs HL Hdoc H. unfold read_docx, read_docx_body.
    rewrite HL, Hdoc. cbn [bind].
    rewrite filter_all_false by (intros t Ht; now rewrite (H t Ht)).
    cbn [map join try_except].
    change (clean_text []) with (@nil char). now rewrite slice_to_nil.
  - intros wb worksheets HL Hwb H. unfold read_xlsx, read_xlsx_body.
    rewrite HL, Hwb. cbn [bind].
    rewrite (xlsx_sheets_empty max_chars _ H). cbn [bind try_except join].
    change (clean_text []) with (@nil char). now rewrite slice_to_nil.
Qed.

Lemma X7_empty_document_empty_excerpt_witness :
  read_pdf libs_blank_pdf (lit "/d/scan.pdf") 1600 = Ok [].
Proof.
  refine (proj1 (X7_empty_document_empty_excerpt libs_blank_pdf
                   (lit "/d/scan.pdf") 1600)
            _ _ eq_refl eq_refl _).
  intros pg [<-|[<-|[]]]; eexists; split; reflexivity.
Defined.

(** What [read_xlsx] can see of a sheet: its title and twenty rows. *)
Lemma xlsx_sheets_cap (max_chars : Z) (wss : list worksheet) :
  forall wss' parts,
    map (fun ws => (ws_title ws, firstn 20 (ws_rows ws))) wss
    = map (fun ws => (ws_title ws, firstn 20 (ws_rows ws))) wss' ->
    xlsx_sheets max_chars wss parts = xlsx_sheets max_chars wss' parts.
Proof.
  induction wss as [|ws wss IH]; intros [|ws' wss'] parts E;
    try discriminate; [reflexivity|].
  cbn [xlsx_sheets]. unfold iter_rows. cbn [map] in E.
  set (rs := firstn 20 (ws_rows ws)) in *.
  set (rs' := firstn 20 (ws_rows ws')) in *. clearbody rs rs'.
  injection E as Et Er E. subst rs'. rewrite Et.
  destruct (xlsx_rows max_chars rs []) as [rows|e];
    cbn [bind]; [|reflexivity].
  destruct rows as [|r rows]; [now apply IH|].
  match goal with
  | |- context [(sum_len ?a >? max_chars)%Z] =>
      destruct (sum_len a >? max_chars)%Z
  end; [reflexivity|now apply IH].
Qed.

(** X8: the readers look at a bounded part of a document: two PDFs with
    the same first ten pages give the same result, and so do two
    workbooks whose first three sheets have the same titles and the same
    first twenty rows. *)
Theorem X8_readers_bounded_view (p : Path) (max_chars : Z) :
  (forall rd rd' pages pages',
      rd p = Ok pages -> rd' p = Ok pages' ->
      firstn 10 pages = firstn 10 pages' ->
      read_pdf_body rd p max_chars = read_pdf_body rd' p max_chars) /\
  (forall wb wb' sheets sheets',
      wb p = Ok sheets -> wb' p = Ok sheets' ->
      map (fun ws => (ws_title ws, firstn 20 (ws_rows ws))) (firstn 3 sheets)
      = map (fun ws => (ws_title ws, firstn 20 (ws_rows ws))) (firstn 3 sheets') ->
      read_xlsx_body wb p max_chars = read_xlsx_body wb' p max_chars).
Proof.
  split.
  - intros rd rd' pages pages' H H' E. unfold read_pdf_body.
    rewrite H, H'. cbn [bind]. now rewrite E.
  - intros wb wb' sheets sheets' H H' E. unfold read_xlsx_body.
    rewrite H, H'. cbn [bind].
    now rewrite (xlsx_sheets_cap max_chars _ _ [] E).
Qed.

Lemma X8_readers_bounded_view_witness :
  read_xlsx_body (fun _ => Ok four_sheets) (lit "/d/a.xlsx") 1600
  = read_xlsx_body (fun _ => Ok three_sheets) (lit "/d/a.xlsx") 1600.
Proof.
  exact (proj2 (X8_readers_bounded_view (lit "/d/a.xlsx") 1600)
           (fun _ => Ok four_sheets) (fun _ => Ok three_sheets)
           four_sheets three_sheets eq_refl eq_refl eq_refl).
Defined.

(** ** [build_context]: what is kept and what is listed *)

Lemma context_loop_cons it rest remaining lines filenames :
  context_loop (it :: rest) remaining lines filenames
  = if (remaining <=? 0)%Z then (lines, filenames)
    else
      let chunk :=
        if (len (chunk_of it) >? remaining)%Z
        then slice_to remaining (chunk_of it)
        else chunk_of it in
      context_loop rest (remaining - len chunk)
        (lines ++ [chunk]) (filenames ++ [title it]).
Proof. reflexivity. Qed.

Lemma join_empty_concat (l : list str) : join [] l = concat l.
Proof.
  induction l as [|x l IH]; [reflexivity|].
  destruct l as [|y l]; [simpl; now rewrite app_nil_r|].
  change (join [] (x :: y :: l)) with (x ++ [] ++ join [] (y :: l)).
  rewrite IH. reflexivity.
Qed.

Lemma chunk_of_pos (it : EvidenceItem) : (0 < len (chunk_of it))%Z.
Proof. unfold chunk_of, len. rewrite length_app. simpl length. lia. Qed.

(** The loop appends the part of the remaining chunks that the budget
    left to it can hold. *)
Lemma context_loop_text (items : list EvidenceItem) :
  forall remaining lines filenames,
    concat (fst (context_loop items remaining lines filenames))
    = concat lines
      ++ firstn (Z.to_nat remaining) (concat (map chunk_of items)).
Proof.
  induction items as [|it rest IH]; intros remaining lines filenames.
  - simpl. now rewrite firstn_nil, app_nil_r.
  - rewrite context_loop_cons.
    destruct (remaining <=? 0)%Z eqn:Hr.
    + apply Z.leb_le in Hr. replace (Z.to_nat remaining) with 0%nat by lia.
      simpl. now rewrite app_nil_r.
    + apply Z.leb_gt in Hr. cbv zeta. rewrite IH.
      rewrite concat_app. cbn [concat]. rewrite app_nil_r, <- app_assoc.
      f_equal. cbn [map concat]. rewrite firstn_app.
      destruct (len (chunk_of it) >? remaining)%Z eqn:Hgt.
      * rewrite Z.gtb_ltb in Hgt. apply Z.ltb_lt in Hgt.
        unfold slice_to. replace (0 <=? remaining)%Z with true
          by (symmetry; apply Z.leb_le; lia).
        unfold len in *. rewrite length_firstn.
        replace (Z.to_nat (remaining
                           - Z.of_nat (Nat.min (Z.to_nat remaining)
                                         (length (chunk_of it)))))
          with 0%nat by lia.
        replace (Z.to_nat remaining - length (chunk_of it))%nat
          with 0%nat by lia.
        reflexivity.
      * rewrite Z.gtb_ltb in Hgt. apply Z.ltb_ge in Hgt. unfold len in *.
        rewrite (firstn_all2 (chunk_of it)) by lia.
        f_equal. f_equal. lia.
Qed.

(** X9: the context string is the untruncated text (the header
    followed by the chunks of all items) with everything after the
    header cut to the [max_chars - 9] characters the header leaves; so
    for a budget of at least 9 it is the first [max_chars] characters of
    the untruncated text. *)
Theorem X9_build_context_is_cut_of_full_text
    (items : list EvidenceItem) (max_chars : Z) :
  fst (build_context items max_chars)
  = HEADER ++ firstn (Z.to_nat (max_chars - 9))
                (concat (map chunk_of items)) /\
  (9 <= max_chars ->
   fst (build_context items max_chars)
   = slice_to max_chars (HEADER ++ concat (map chunk_of items)))%Z.
Proof.
  assert (E : fst (build_context items max_chars)
              = HEADER ++ firstn (Z.to_nat (max_chars - 9))
                            (concat (map chunk_of items))).
  { unfold build_context.
    pose proof (context_loop_text items (max_chars - len HEADER) [HEADER] [])
      as H.
    destruct (context_loop items (max_chars - len HEADER) [HEADER] [])
      as [lines filenames].
    cbn [fst] in *. rewrite join_empty_concat, H.
    cbn [concat]. rewrite app_nil_r. reflexivity. }
  split; [exact E|].
  intros Hm. rewrite E. unfold slice_to.
  replace (0 <=? max_chars)%Z with true by (symmetry; apply Z.leb_le; lia).
  rewrite firstn_app. rewrite (firstn_all2 HEADER)
    by (change (length HEADER) with 9%nat; lia).
  f_equal. f_equal. change (length HEADER) with 9%nat. lia.
Qed.

Lemma X9_build_context_is_cut_of_full_text_witness :
  fst (build_context [item_long; item_long] 20)
  = slice_to 20 (HEADER ++ concat (map chunk_of [item_long; item_long])).
Proof.
  apply (X9_build_context_is_cut_of_full_text [item_long; item_long] 20).
  lia.
Defined.

Lemma sum_len_nonneg (l : list str) : (0 <= sum_len l)%Z.
Proof.
  induction l as [|x l IH]; [simpl; lia|].
  change (sum_len (x :: l)) with (len x + sum_len l)%Z.
  pose proof (len_nonneg x). lia.
Qed.

Lemma context_loop_fits (items : list EvidenceItem) :
  forall remaining lines filenames,
    (sum_len (map chunk_of items) <= remaining)%Z ->
    context_loop items remaining lines filenames
    = (lines ++ map chunk_of items, filenames ++ map title items).
Proof.
  induction items as [|it rest IH]; intros remaining lines filenames H.
  - simpl. now rewrite !app_nil_r.
  - rewrite context_loop_cons.
    change (sum_len (map chunk_of (it :: rest)))
      with (len (chunk_of it) + sum_len (map chunk_of rest))%Z in H.
    pose proof (chunk_of_pos it) as Hp.
    pose proof (sum_len_nonneg (map chunk_of rest)) as Hs.
    replace (remaining <=? 0)%Z with false by (symmetry; apply Z.leb_gt; lia).
    replace (len (chunk_of it) >? remaining)%Z with false
      by (symmetry; rewrite Z.gtb_ltb; apply Z.ltb_ge; lia).
    cbv zeta. rewrite IH by lia.
    simpl map. now rewrite <- !app_assoc.
Qed.

(** X10: when the header and all chunks fit the budget, nothing is cut
    and every item is listed: the context is the header followed by the
    chunk of each item, and the file names are the titles of all items,
    in their order. *)
Theorem X10_build_context_fits
    (items : list EvidenceItem) (max_chars : Z) :
  (len HEADER + sum_len (map chunk_of items) <= max_chars)%Z ->
  build_context items max_chars
  = (HEADER ++ concat (map chunk_of items), map title items).
Proof.
  intros H. unfold build_context.
  rewrite context_loop_fits by lia.
  rewrite join_empty_concat. reflexivity.
Qed.

Lemma X10_build_context_fits_witness :
  build_context [item_long; item_long] 200
  = (HEADER ++ concat (map chunk_of [item_long; item_long]),
     [lit "plan.pdf"; lit "plan.pdf"]).
Proof.
  apply (X10_build_context_fits [item_long; item_long] 200).
  vm_compute. discriminate.
Defined.

Lemma context_loop_names (items : list EvidenceItem) :
  forall remaining lines filenames,
  exists k,
    snd (context_loop items remaining lines filenames)
    = filenames ++ map title (firstn k items) /\
    ((0 < remaining)%Z -> items <> [] -> 0 < k).
Proof.
  induction items as [|it rest IH]; intros remaining lines filenames.
  - exists 0%nat. simpl. rewrite app_nil_r. split; [reflexivity|congruence].
  - rewrite context_loop_cons.
    destruct (remaining <=? 0)%Z eqn:Hr.
    + exists 0%nat. simpl. rewrite app_nil_r. apply Z.leb_le in Hr.
      split; [reflexivity|lia].
    + cbv zeta.
      match goal with
      | |- context [context_loop rest ?r ?l ?f] =>
          destruct (IH r l f) as (k & Hk & _)
      end.
      exists (S k). rewrite Hk. simpl firstn. simpl map.
      rewrite <- app_assoc. split; [reflexivity|lia].
Qed.

(** X11: the file names returned by [build_context] are the titles of a
    leading part of the items, in their order (the items reached before
    the budget ran out); with a budget above 9 and at least one item,
    the first item is always listed. *)
Theorem X11_build_context_filenames
    (items : list EvidenceItem) (max_chars : Z) :
  exists k,
    snd (build_context items max_chars) = map title (firstn k items) /\
    ((9 < max_chars)%Z -> items <> [] -> 0 < k).
Proof.
  unfold build_context.
  destruct (context_loop_names items (max_chars - len HEADER) [HEADER] [])
    as (k & Hk & Hpos).
  destruct (context_loop items (max_chars - len HEADER) [HEADER] [])
    as [lines filenames].
  exists k. split; [exact Hk|].
  intros H. apply Hpos. change (len HEADER) with 9%Z. lia.
Qed.

Lemma X11_build_context_filenames_witness :
  exists k,
    snd (build_context [item_long; item_long] 20)
    = map title (firstn k [item_long; item_long]) /\ 0 < k.
Proof.
  destruct (X11_build_context_filenames [item_long; item_long] 20)
    as (k & Hk & Hpos).
  exists k. split; [exact Hk|apply Hpos; [lia|discriminate]].
Defined.

(** ** [load_evidence] and the [run] command *)

Lemma read_pdf_total L p n : exists s, read_pdf L p n = Ok s.
Proof.
  unfold read_pdf. destruct (PdfReader L); [|eauto].
  destruct (read_pdf_body _ _ _); simpl; eauto.
Qed.

Lemma read_docx_total L p n : exists s, read_docx L p n = Ok s.
Proof.
  unfold read_docx. destruct (docx L); [|eauto].
  destruct (read_docx_body _ _ _); simpl; eauto.
Qed.

Lemma read_xlsx_total L p n : exists s, read_xlsx L p n = Ok s.
Proof.
  unfold read_xlsx. destruct (openpyxl L); [|eauto].
  destruct (read_xlsx_body _ _ _); simpl; eauto.
Qed.

(** The keys of [handlers] are the supported extensions, and each
    handler carries the reader and the kind of its extension. *)
Lemma handler_for_cases (ext : str) :
  (existsb (str_eqb ext) supported_exts = true /\
   exists reader kind,
     handler_for ext = Some (reader, kind) /\ lit "." ++ kind = ext /\
     forall L p n, exists s, reader L p n = Ok s) \/
  (existsb (str_eqb ext) supported_exts = false /\ handler_for ext = None).
Proof.
  unfold handler_for, handlers, supported_exts.
  cbn [find existsb fst snd].
  destruct (str_eqb ext (lit ".pdf")) eqn:E1.
  { left. split; [reflexivity|]. apply str_eqb_eq in E1.
    exists read_pdf, (lit "pdf"). split; [reflexivity|].
    split; [now subst|apply read_pdf_total]. }
  destruct (str_eqb ext (lit ".docx")) eqn:E2.
  { left. split; [reflexivity|]. apply str_eqb_eq in E2.
    exists read_docx, (lit "docx"). split; [reflexivity|].
    split; [now subst|apply read_docx_total]. }
  destruct (str_eqb ext (lit ".xlsx")) eqn:E3.
  { left. split; [reflexivity|]. apply str_eqb_eq in E3.
    exists read_xlsx, (lit "xlsx"). split; [reflexivity|].
    split; [now subst|apply read_xlsx_total]. }
  right. split; reflexivity.
Qed.

(** X12: [load_evidence] returns one item for each path with a
    supported extension, in the order of the paths, and silently skips
    the others; the title of an item is the file name of its path and
    its kind is the lowercased extension without the dot. *)
Theorem X12_load_evidence_items
    (lower : str -> str) (L : libs) (paths : list Path) (per_file : Z) :
  exists items,
    load_evidence lower L paths per_file = Ok items /\
    map path items = filter (supported lower) paths /\
    Forall (fun it => title it = name (path it) /\
                      lit "." ++ kind it = lower (suffix (path it))) items.
Proof.
  induction paths as [|p rest (items & E & Hp & Hf)].
  - exists []. repeat split. constructor.
  - cbn [load_evidence filter]. unfold supported at 1.
    destruct (handler_for_cases (lower (suffix p)))
      as [(S & reader & k & H & Hk & Hr)|(S & H)]; rewrite S, H.
    + destruct (Hr L p per_file) as [s Hs]. rewrite Hs, E. cbn [bind].
      eexists. split; [reflexivity|]. cbn [map path]. split; [now f_equal|].
      constructor; [|assumption]. cbn [title path kind]. now split.
    + exists items. now repeat split.
Qed.

Lemma load_evidence_paths lower L paths per_file :
  exists items,
    load_evidence lower L paths per_file = Ok items /\
    map path items = filter (supported lower) paths.
Proof.
  induction paths as [|p rest (items & E & Hp)].
  - exists []. now split.
  - cbn [load_evidence filter]. unfold supported at 1.
    destruct (handler_for_cases (lower (suffix p)))
      as [(S & reader & k & H & _ & Hr)|(S & H)]; rewrite S, H.
    + destruct (Hr L p per_file) as [s Hs]. rewrite Hs, E. cbn [bind].
      eexists. split; [reflexivity|]. cbn [map path]. now f_equal.
    + exists items. now split.
Qed.

Lemma filter_all_true {A : Type} (f : A -> bool) (l : list A) :
  Forall (fun x => f x = true) l -> filter f l = l.
Proof.
  induction 1 as [|x l Hx _ IH]; [reflexivity|]. simpl. now rewrite Hx, IH.
Qed.

Lemma queue_after_supported lower L evs :
  Forall (fun p => supported lower p = true) (queue_after lower L evs).
Proof.
  apply (queue_after_inv lower L (Forall (fun p => supported lower p = true)));
    [constructor|].
  intros queue fs args Hq. rewrite cmd_add_queue.
  apply Forall_app. split; [assumption|].
  apply Forall_forall. intros x Hx. apply fresh_spec in Hx.
  destruct Hx as [Hx _]. unfold found_paths in Hx.
  now apply filter_In in Hx.
Qed.

(** X13: at any point of a session where the queue is not empty, [run]
    reaches the team: evidence is loaded for every queued path (none is
    skipped, since only supported paths are queued), the branch
    ["No evidence"] is not taken, and the context handed over has at
    most 10000 characters and lists at least one file. *)
Theorem X13_run_reaches_team
    (lower : str -> str) (L : libs) (evs : list input_event) :
  queue_after lower L evs <> [] ->
  exists items context filenames,
    load_evidence lower L (queue_after lower L evs) 1600 = Ok items /\
    map path items = queue_after lower L evs /\
    cmd_run lower L (queue_after lower L evs)
    = ([Print (lit "Context length: " ++ str_of_nat (length context)
               ++ lit " chars");
        Print (lit "Starting audit...");
        TeamRun context filenames], Continue) /\
    (len context <= 10000)%Z /\
    filenames <> [].
Proof.
  intros Hq.
  destruct (load_evidence_paths lower L (queue_after lower L evs) 1600)
    as (items & E & Hp).
  rewrite (filter_all_true _ _ (queue_after_supported lower L evs)) in Hp.
  pose proof (build_context_len items 10000) as Hlen.
  destruct (context_loop_names items (10000 - len HEADER) [HEADER] [])
    as (k & Hk & Hpos).
  exists items, (fst (build_context items 10000)),
    (snd (build_context items 10000)).
  split; [exact E|]. split; [exact Hp|]. split; [|split].
  - unfold cmd_run. destruct (queue_after lower L evs) as [|p q] eqn:Q;
      [congruence|].
    rewrite E. destruct items as [|it items]; [discriminate|].
    unfold run_audit. destruct (build_context (it :: items) 10000).
    reflexivity.
  - change (len HEADER) with 9%Z in Hlen. lia.
  - assert (Hi : items <> []).
    { intros ->. simpl in Hp. congruence. }
    specialize (Hpos ltac:(change (len HEADER) with 9%Z; lia) Hi).
    unfold build_context.
    destruct (context_loop items (10000 - len HEADER) [HEADER] [])
      as [lines filenames].
    cbn [snd] in *. rewrite Hk. destruct k; [lia|].
    destruct items; [congruence|]. discriminate.
Qed.

Lemma X13_run_reaches_team_witness :
  exists items context filenames,
    load_evidence ascii_lower libs_all
      (queue_after ascii_lower libs_all sample_session) 1600 = Ok items /\
    map path items = queue_after ascii_lower libs_all sample_session /\
    cmd_run ascii_lower libs_all
      (queue_after ascii_lower libs_all sample_session)
    = ([Print (lit "Context length: " ++ str_of_nat (length context)
               ++ lit " chars");
        Print (lit "Starting audit...");
        TeamRun context filenames], Continue) /\
    (len context <= 10000)%Z /\
    filenames <> [].
Proof.
  apply (X13_run_reaches_team ascii_lower libs_all sample_session).
  intros H. vm_compute in H. discriminate H.
Defined.

Example run_sample :
  fst (cmd_run ascii_lower libs_all [lit "/d/c.DOCX"])
  = [Print (lit "Context length: 46 chars");
     Print (lit "Starting audit...");
     TeamRun (lit "Evidence:" ++ [LF] ++ lit "## c.DOCX (docx)" ++ [LF]
              ++ lit "Scope" ++ [LF] ++ lit "Design notes" ++ [LF])
       [lit "c.DOCX"]].
Proof. reflexivity. Qed.

(** ** [discover_paths]: where its paths come from, how it composes *)

Lemma globbed_In (fs : FS) (patterns : list str) (p : Path) :
  In p (globbed fs patterns) <->
  exists pat g,
    In pat patterns /\ In g (glob fs pat) /\ p = resolve fs g /\
    path_exists fs p = true /\ path_is_file fs p = true.
Proof.
  unfold globbed. rewrite in_flat_map. split.
  - intros (pat & Hpat & H). apply filter_In in H. destruct H as [H Hb].
    apply in_map_iff in H. destruct H as (g & <- & Hg).
    apply andb_true_iff in Hb. exists pat, g. tauto.
  - intros (pat & g & Hpat & Hg & -> & He & Hf).
    exists pat. split; [assumption|]. apply filter_In. split.
    + apply in_map_iff. eauto.
    + now rewrite He, Hf.
Qed.

Lemma discover_paths_In (fs : FS) (patterns : list str) (p : Path) :
  In p (discover_paths fs patterns) <->
  exists pat g,
    In pat patterns /\ In g (glob fs pat) /\ p = resolve fs g /\
    path_exists fs p = true /\ path_is_file fs p = true.
Proof. unfold discover_paths. rewrite fromkeys_In. apply globbed_In. Qed.

(** X14: [discover_paths] returns the resolved glob matches that exist
    and are regular files, and all of them: a path is in the result
    exactly when it is the resolution of a match of one of the patterns,
    exists and is a file. *)
Theorem X14_discover_paths_membership
    (fs : FS) (patterns : list str) (p : Path) :
  In p (discover_paths fs patterns) <->
  exists pat g,
    In pat patterns /\ In g (glob fs pat) /\ p = resolve fs g /\
    path_exists fs p = true /\ path_is_file fs p = true.
Proof.
  unfold discover_paths. split.
  - intros H. apply (proj1 (globbed_In fs patterns p)).
    exact (proj1 (fromkeys_In _ p) H).
  - intros H. apply (proj2 (fromkeys_In _ p)).
    exact (proj2 (globbed_In fs patterns p) H).
Qed.

Lemma mem_app (p : Path) (a b : list Path) :
  mem p (a ++ b) = mem p a || mem p b.
Proof. apply existsb_app. Qed.

Lemma mem_filter (f : Path -> bool) (p : Path) (l : list Path) :
  mem p (filter f l) = f p && mem p l.
Proof.
  induction l as [|x l IH]; [now rewrite andb_false_r|].
  simpl. destruct (f x) eqn:Fx; simpl; rewrite IH.
  - destruct (str_eqb p x) eqn:E; simpl.
    + apply str_eqb_eq in E. subst. now rewrite Fx.
    + reflexivity.
  - destruct (str_eqb p x) eqn:E; simpl; [|reflexivity].
    apply str_eqb_eq in E. subst. now rewrite Fx.
Qed.

Lemma mem_fresh (p : Path) (queue found : list Path) :
  mem p (fresh queue found) = negb (mem p queue) && mem p found.
Proof. unfold fresh. apply (mem_filter (fun p => negb (mem p queue))). Qed.

Lemma fresh_app (queue a b : list Path) :
  fresh queue (a ++ b) = fresh queue a ++ fresh queue b.
Proof. apply filter_app. Qed.

Lemma fresh_all_queued (queue found : list Path) :
  (forall p, In p found -> In p queue) -> fresh queue found = [].
Proof.
  intros H. apply filter_all_false. intros p Hp.
  apply negb_false_iff, mem_In. auto.
Qed.

Lemma fresh_single (queue : list Path) (x : Path) :
  fresh queue [x] = if mem x queue then [] else [x].
Proof. unfold fresh. simpl. now destruct (mem x queue). Qed.

(** Keys inserted after others: those not seen yet are appended. *)
Lemma fromkeys_app (l1 l2 : list Path) :
  fromkeys (l1 ++ l2) = fromkeys l1 ++ fresh (fromkeys l1) (fromkeys l2).
Proof.
  induction l2 as [|x l IH] using rev_ind.
  - rewrite app_nil_r. simpl. now rewrite app_nil_r.
  - rewrite app_assoc, !fromkeys_snoc, IH, mem_app, mem_fresh.
    destruct (mem x (fromkeys l)) eqn:B.
    + rewrite andb_true_r, orb_negb_r. reflexivity.
    + rewrite andb_false_r, orb_false_r, fresh_app, fresh_single.
      destruct (mem x (fromkeys l1)).
      * now rewrite app_nil_r.
      * now rewrite app_assoc.
Qed.

(** X15: expanding two lists of patterns one after the other is
    expanding the first, then appending the paths of the second that the
    first did not give; so repeating patterns changes nothing. *)
Theorem X15_discover_paths_append (fs : FS) (a b : list str) :
  discover_paths fs (a ++ b)
  = discover_paths fs a
    ++ filter (fun p => negb (mem p (discover_paths fs a)))
         (discover_paths fs b) /\
  discover_paths fs (a ++ a) = discover_paths fs a.
Proof.
  assert (E : forall x y,
             discover_paths fs (x ++ y)
             = discover_paths fs x
               ++ fresh (discover_paths fs x) (discover_paths fs y)).
  { intros x y. unfold discover_paths, globbed.
    rewrite flat_map_app. apply fromkeys_app. }
  split; [apply E|].
  rewrite E, fresh_all_queued by trivial. apply app_nil_r.
Qed.

(** ** The queue under repeated and split [add] commands *)

(** X16: an [add] command repeated on an unchanged file system leaves
    the queue as the first one left it. *)
Theorem X16_add_twice_is_add_once
    (lower : str -> str) (queue : list Path) (fs : FS) (args : list str) :
  fst (cmd_add lower (fst (cmd_add lower queue fs args)) fs args)
  = fst (cmd_add lower queue fs args).
Proof.
  rewrite (cmd_add_queue lower (fst (cmd_add lower queue fs args)) fs args).
  rewrite (cmd_add_queue lower queue fs args).
  rewrite (fresh_all_queued
             (queue ++ fresh queue (found_paths lower fs args))
             (found_paths lower fs args)); [apply app_nil_r|].
  intros p Hp. apply in_or_app.
  destruct (mem p queue) eqn:M.
  - left. now apply mem_In.
  - right. apply fresh_spec. split; [assumption|now apply mem_not_In].
Qed.

Lemma filter_filter {A : Type} (f g : A -> bool) (l : list A) :
  filter f (filter g l) = filter (fun x => g x && f x) l.
Proof.
  induction l as [|x l IH]; [reflexivity|]. simpl.
  destruct (g x); simpl; [destruct (f x)|]; now rewrite IH.
Qed.

(** X17: on an unchanged file system, [add] with patterns [a] followed
    by [add] with patterns [b] queues what a single [add] with the
    patterns of both queues, in the same order. *)
Theorem X17_two_adds_are_one
    (lower : str -> str) (queue : list Path) (fs : FS) (a b : list str) :
  fst (cmd_add lower (fst (cmd_add lower queue fs a)) fs b)
  = fst (cmd_add lower queue fs (a ++ b)).
Proof.
  rewrite !cmd_add_queue, <- app_assoc. f_equal.
  unfold found_paths, discover_paths, globbed.
  rewrite flat_map_app, fromkeys_app.
  fold (globbed fs a) (globbed fs b).
  fold (discover_paths fs a) (discover_paths fs b).
  rewrite filter_app, fresh_app. f_equal.
  unfold fresh. rewrite !filter_filter.
  apply filter_ext_in. intros p _.
  rewrite mem_app.
  rewrite (mem_filter (fun x => supported lower x && negb (mem x queue))).
  destruct (supported lower p), (mem p queue), (mem p (discover_paths fs a));
    reflexivity.
Qed.

Example two_adds_sample :
  fst (cmd_add ascii_lower
         (fst (cmd_add ascii_lower [] sample_fs [lit "*.pdf"]))
         sample_fs [lit "*"])
  = [lit "/d/b.pdf"; lit "/d/a.pdf"; lit "/d/c.DOCX"].
Proof. reflexivity. Qed.

(** A line that makes no raising call appends nothing to the queue
    unless it is an [add]; an [add] with arguments makes one. *)
Lemma raising_none_queue lower L queue fs raw :
  raising_call lower L queue raw = None ->
  fst (fst (dispatch lower L queue fs raw)) = queue \/
  fst (fst (dispatch lower L queue fs raw)) = [].
Proof.
  unfold raising_call.
  destruct (split (strip raw)) as [|cmd args] eqn:E.
  - intros _. left. unfold dispatch.
    destruct (strip raw) as [|c t]; [reflexivity|]. now rewrite E.
  - rewrite (dispatch_command lower L queue fs raw cmd args E). cbv zeta.
    destruct (str_eqb (lower cmd) (lit "quit") || str_eqb (lower cmd) (lit "exit"));
      [now left|].
    destruct (str_eqb (lower cmd) (lit "add")).
    { destruct args as [|a args]; [now left|discriminate]. }
    destruct (str_eqb (lower cmd) (lit "list")); [now left|].
    destruct (str_eqb (lower cmd) (lit "clear")); [now right|].
    destruct (str_eqb (lower cmd) (lit "run")); [|now left].
    intros _. destruct (cmd_run lower L queue). now left.
Qed.

Lemma loop_origin lower L (evs : list input_event) :
  forall queue p,
    In p (fst (fst (loop lower L queue evs))) ->
    In p queue \/
    exists fs raw,
      In (Line fs raw) evs /\
      path_exists fs p = true /\ path_is_file fs p = true.
Proof.
  induction evs as [|ev rest IH]; intros queue p H.
  - left. exact H.
  - cbn [loop] in H.
    assert (S1 : forall x, In x (fst (fst (step lower L queue ev))) ->
                   In x queue \/
                   exists fs raw, ev = Line fs raw /\
                                  path_exists fs x = true /\
                                  path_is_file fs x = true).
    { intros x Hx. destruct ev as [fs raw| | |fs raw e];
        [|now left|now left|].
      2:{ cbn [step] in Hx.
          destruct (raising_call lower L queue raw) eqn:R; [now left|].
          pose proof (raising_none_queue lower L queue fs raw R) as D.
          destruct (dispatch lower L queue fs raw) as [[q o] c].
          cbn [fst] in Hx, D. destruct D as [->| ->]; [now left|destruct Hx]. }
      cbn [step] in Hx.
      pose proof (dispatch_queue lower L queue fs raw) as D.
      destruct (dispatch lower L queue fs raw) as [[q o] c]. cbn in Hx, D.
      destruct D as [->|[->|[args ->]]]; [now left|destruct Hx|].
      rewrite cmd_add_queue in Hx. apply in_app_or in Hx.
      destruct Hx as [Hx|Hx]; [now left|right].
      apply fresh_spec in Hx. destruct Hx as [Hx _].
      unfold found_paths in Hx. apply filter_In in Hx. destruct Hx as [Hx _].
      apply discover_paths_In in Hx.
      destruct Hx as (pat & g & _ & _ & _ & He & Hf).
      exists fs, raw. auto. }
    destruct (step lower L queue ev) as [[q o] c]. cbn [fst] in S1.
    assert (Done : In p q ->
                   In p queue \/
                   exists fs raw,
                     In (Line fs raw) (ev :: rest) /\
                     path_exists fs p = true /\ path_is_file fs p = true).
    { intros Hq. destruct (S1 p Hq) as [?|(fs & raw & -> & ? & ?)];
        [now left|right]. exists fs, raw. split; [now left|auto]. }
    destruct c; [|exact (Done H)|exact (Done H)].
    specialize (IH q p). destruct (loop lower L q rest) as [[q' o'] c'].
    cbn [fst] in *. destruct (IH H) as [Hq|(fs & raw & Hin & ? & ?)].
    + exact (Done Hq).
    + right. exists fs, raw. split; [now right|auto].
Qed.

(** X18: only existing regular files are queued: every path of the
    queue, at any point of a session, existed and was a regular file
    when some line of the session was read. *)
Theorem X18_queued_paths_are_files
    (lower : str -> str) (L : libs) (evs : list input_event) (p : Path) :
  In p (queue_after lower L evs) ->
  exists fs raw,
    In (Line fs raw) evs /\
    path_exists fs p = true /\ path_is_file fs p = true.
Proof.
  intros H. destruct (loop_origin lower L evs [] p H) as [[]|H']. exact H'.
Qed.

Lemma X18_queued_paths_are_files_witness :
  exists fs raw,
    In (Line fs raw) sample_session /\
    path_exists fs (lit "/d/c.DOCX") = true /\
    path_is_file fs (lit "/d/c.DOCX") = true.
Proof.
  apply (X18_queued_paths_are_files ascii_lower libs_all sample_session
           (lit "/d/c.DOCX")).
  right; right; left; reflexivity.
Defined.

(** ** Reading a command line *)

Lemma split_from_blank (w : str) :
  forallb is_space w = true ->
  forall cur, split_from cur w = split_from cur [].
Proof.
  induction w as [|c w IH]; intros H cur; [reflexivity|].
  simpl in H. apply andb_true_iff in H. destruct H as [Hc Hw].
  cbn [split_from]. rewrite Hc.
  destruct cur; rewrite (IH Hw []); reflexivity.
Qed.

Lemma split_from_app_blank (r w : str) :
  forallb is_space w = true ->
  forall cur, split_from cur (r ++ w) = split_from cur r.
Proof.
  intros Hw. induction r as [|c r IH]; intros cur.
  - now apply split_from_blank.
  - cbn [app split_from]. destruct (is_space c); [|apply IH].
    destruct cur; now rewrite IH.
Qed.

Lemma split_lstrip (s : str) : split (lstrip s) = split s.
Proof.
  unfold split, lstrip. induction s as [|c t IH]; [reflexivity|].
  cbn [drop_while split_from]. destruct (is_space c) eqn:E; [exact IH|].
  cbn [split_from]. now rewrite E.
Qed.

Lemma take_while_all (P : char -> bool) (s : str) :
  forallb P (take_while P s) = true.
Proof.
  induction s as [|c t IH]; [reflexivity|]. simpl.
  destruct (P c) eqn:E; simpl; [now rewrite E|reflexivity].
Qed.

Lemma forallb_rev_true (P : char -> bool) (s : str) :
  forallb P s = true -> forallb P (rev s) = true.
Proof.
  intros H. apply forallb_forall. intros x Hx. apply in_rev in Hx.
  now apply (proj1 (forallb_forall P s) H).
Qed.

Lemma split_rstrip (s : str) : split (rstrip s) = split s.
Proof.
  unfold split.
  assert (E : s = rstrip s ++ rev (take_while is_space (rev s))).
  { unfold rstrip. rewrite <- rev_app_distr, <- take_drop_while.
    now rewrite rev_involutive. }
  rewrite E at 2. symmetry. apply split_from_app_blank.
  apply forallb_rev_true, take_while_all.
Qed.

Lemma split_strip (s : str) : split (strip s) = split s.
Proof. unfold strip. now rewrite split_rstrip, split_lstrip. Qed.

(** The body of the loop reads a line through its fields alone. *)
Lemma dispatch_by_fields lower L queue fs raw :
  dispatch lower L queue fs raw
  = match split raw with
    | [] => (queue, [], Continue)
    | cmd :: args =>
        let cmd := lower cmd in
        if str_eqb cmd (lit "quit") || str_eqb cmd (lit "exit")
        then (queue, [], Break)
        else if str_eqb cmd (lit "add")
        then let '(q, o) := cmd_add lower queue fs args in (q, o, Continue)
        else if str_eqb cmd (lit "list")
        then (queue, cmd_list queue, Continue)
        else if str_eqb cmd (lit "clear")
        then ([], [Print (lit "Queue cleared")], Continue)
        else if str_eqb cmd (lit "run")
        then let '(o, c) := cmd_run lower L queue in (queue, o, c)
        else (queue, [Print (lit "Unknown command")], Continue)
    end.
Proof.
  pose proof (split_strip raw) as E.
  pose proof (split_strip_nonempty raw) as N.
  destruct (split raw) as [|cmd args].
  - unfold dispatch. destruct (strip raw) as [|c t]; [reflexivity|].
    elim N; [discriminate|assumption].
  - now apply dispatch_command.
Qed.

(** X19: a command line counts through its whitespace-separated fields
    only: two lines with the same fields have the same effect and
    output, whatever whitespace surrounds or separates the fields; and a
    line of whitespace only (or empty) does nothing. *)
Theorem X19_command_line_read_by_fields
    (lower : str -> str) (L : libs) (queue : list Path) (fs : FS)
    (raw raw' : str) :
  (split raw = split raw' ->
   dispatch lower L queue fs raw = dispatch lower L queue fs raw') /\
  (forallb is_space raw = true ->
   dispatch lower L queue fs raw = (queue, [], Continue)).
Proof.
  split.
  - intros E. rewrite !dispatch_by_fields, E. reflexivity.
  - intros H. rewrite dispatch_by_fields. unfold split.
    now rewrite (split_from_blank raw H []).
Qed.

Lemma X19_command_line_read_by_fields_witness :
  dispatch ascii_lower libs_all [lit "/d/a.pdf"] sample_fs
    ([SPACE; TAB] ++ lit "add" ++ [TAB] ++ lit "*.pdf   *" ++ [CR; LF])
  = dispatch ascii_lower libs_all [lit "/d/a.pdf"] sample_fs
      (lit "add *.pdf *") /\
  dispatch ascii_lower libs_all [lit "/d/a.pdf"] sample_fs [SPACE; TAB]
  = ([lit "/d/a.pdf"], [], Continue).
Proof.
  split.
  - apply (X19_command_line_read_by_fields ascii_lower libs_all
             [lit "/d/a.pdf"] sample_fs
             ([SPACE; TAB] ++ lit "add" ++ [TAB] ++ lit "*.pdf   *" ++ [CR; LF])
             (lit "add *.pdf *")).
    reflexivity.
  - apply (X19_command_line_read_by_fields ascii_lower libs_all
             [lit "/d/a.pdf"] sample_fs [SPACE; TAB] []).
    reflexivity.
Defined.

(** ** The end of a session *)

Lemma loop_stops_at_break lower L (ev : input_event) (rest : list input_event) :
  (forall queue, snd (step lower L queue ev) = Break) ->
  forall evs queue,
    loop lower L queue (evs ++ ev :: rest) = loop lower L queue (evs ++ [ev]).
Proof.
  intros Hb. induction evs as [|e evs IH]; intros queue.
  - cbn [app loop]. pose proof (Hb queue) as B.
    destruct (step lower L queue ev) as [[q o] c]. cbn in B. now subst c.
  - cbn [app loop]. destruct (step lower L queue e) as [[q o] c].
    destruct c; [|reflexivity|reflexivity]. now rewrite IH.
Qed.

(** X20: nothing is read after the session has ended: what follows a
    [quit] or [exit] line (in any letter case that [lower] maps to
    them), an end of input or an interrupt has no effect on the queue,
    on what is printed or on how the loop ends. *)
Theorem X20_nothing_read_after_quit
    (lower : str -> str) (L : libs) (queue : list Path)
    (evs rest : list input_event) (ev : input_event) :
  ev = EOFError \/ ev = KeyboardInterrupt \/
  (exists fs raw cmd args,
      ev = Line fs raw /\ split raw = cmd :: args /\
      (lower cmd = lit "quit" \/ lower cmd = lit "exit")) ->
  loop lower L queue (evs ++ ev :: rest) = loop lower L queue (evs ++ [ev]) /\
  snd (loop lower L queue (evs ++ ev :: rest)) <> Continue.
Proof.
  intros H.
  assert (Hb : forall q, snd (step lower L q ev) = Break).
  { intros q. destruct H as [->|[->|(fs & raw & cmd & args & -> & Hs & Hc)]];
      [reflexivity|reflexivity|].
    cbn [step]. rewrite dispatch_by_fields, Hs. cbv zeta.
    destruct Hc as [-> | ->]; eval_eqb; reflexivity. }
  split; [now apply loop_stops_at_break|].
  rewrite (loop_stops_at_break lower L ev rest Hb).
  clear H. revert queue. induction evs as [|e evs IH]; intros queue.
  - cbn [app loop]. pose proof (Hb queue) as B.
    destruct (step lower L queue ev) as [[q o] c]. cbn in B. subst c.
    discriminate.
  - cbn [app loop]. destruct (step lower L queue e) as [[q o] c].
    destruct c; [|discriminate|discriminate].
    specialize (IH q). destruct (loop lower L q (evs ++ [ev])) as [[q' o'] c'].
    exact IH.
Qed.

Lemma X20_nothing_read_after_quit_witness :
  loop ascii_lower libs_all []
    (sample_session ++ Line sample_fs (lit "QUIT now") :: [Line sample_fs (lit "clear")])
  = loop ascii_lower libs_all []
      (sample_session ++ [Line sample_fs (lit "QUIT now")]).
Proof.
  apply (X20_nothing_read_after_quit ascii_lower libs_all [] sample_session
           [Line sample_fs (lit "clear")] (Line sample_fs (lit "QUIT now"))).
  right; right. exists sample_fs, (lit "QUIT now"), (lit "QUIT"), [lit "now"].
  split; [reflexivity|]. split; [reflexivity|]. left; reflexivity.
Defined.

(** ** Token accounting *)

Lemma add_usage_sum (acc : TokenAccumulator) (usage : option usage_dict) :
  add_usage acc usage
  = {| input_tokens :=
         (input_tokens acc
          + match usage with
            | Some u => usage_get (lit "prompt_tokens") u
                        + usage_get (lit "input_tokens") u
            | None => 0
            end)%Z;
       output_tokens :=
         (output_tokens acc
          + match usage with
            | Some u => usage_get (lit "completion_tokens") u
                        + usage_get (lit "output_tokens") u
            | None => 0
            end)%Z |}.
Proof.
  destruct acc as [i o]. destruct usage as [[|kv u]|]; cbn [add_usage].
  - unfold usage_get. cbn [find input_tokens output_tokens].
    f_equal; lia.
  - reflexivity.
  - cbn [input_tokens output_tokens]. f_equal; lia.
Qed.

Lemma add_usage_comm acc u v :
  add_usage (add_usage acc u) v = add_usage (add_usage acc v) u.
Proof.
  rewrite !add_usage_sum. cbn [input_tokens output_tokens]. f_equal; lia.
Qed.

(** X21: a [TokenAccumulator] sums: after any sequence of [add_usage]
    calls its counters have grown by the sums, over the usages, of
    [prompt_tokens + input_tokens] and of
    [completion_tokens + output_tokens] (a missing key, [None] and the
    empty dictionary counting for 0, other keys being ignored); so the
    order of the calls does not matter. *)
Theorem X21_token_accumulator_sums
    (acc : TokenAccumulator) (usages usages' : list (option usage_dict)) :
  input_tokens (fold_left add_usage usages acc)
  = (input_tokens acc
     + fold_right Z.add 0
         (map (fun usage =>
                 match usage with
                 | Some u => usage_get (lit "prompt_tokens") u
                             + usage_get (lit "input_tokens") u
                 | None => 0
                 end) usages))%Z /\
  output_tokens (fold_left add_usage usages acc)
  = (output_tokens acc
     + fold_right Z.add 0
         (map (fun usage =>
                 match usage with
                 | Some u => usage_get (lit "completion_tokens") u
                             + usage_get (lit "output_tokens") u
                 | None => 0
                 end) usages))%Z /\
  (Permutation usages usages' ->
   fold_left add_usage usages acc = fold_left add_usage usages' acc).
Proof.
  split; [|split].
  - revert acc. induction usages as [|u us IH]; intros acc.
    + simpl. lia.
    + cbn [fold_left map fold_right]. rewrite IH, add_usage_sum.
      cbn [input_tokens]. lia.
  - revert acc. induction usages as [|u us IH]; intros acc.
    + simpl. lia.
    + cbn [fold_left map fold_right]. rewrite IH, add_usage_sum.
      cbn [output_tokens]. lia.
  - intros P. revert acc.
    induction P as [|x l l' _ IH|x y l|l l' l'' _ IH1 _ IH2]; intros acc.
    + reflexivity.
    + cbn [fold_left]. apply IH.
    + cbn [fold_left]. now rewrite add_usage_comm.
    + now rewrite IH1, IH2.
Qed.

Lemma X21_token_accumulator_sums_witness :
  fold_left add_usage [usage_a; None; usage_b] new_accumulator
  = fold_left add_usage [usage_b; usage_a; None] new_accumulator.
Proof.
  apply (X21_token_accumulator_sums new_accumulator
           [usage_a; None; usage_b] [usage_b; usage_a; None]).
  apply perm_trans with (l' := [usage_a; usage_b; None]).
  - apply perm_skip, perm_swap.
  - apply perm_swap.
Defined.

Example report_sample :
  report (fold_left add_usage [usage_a; None; usage_b] new_accumulator)
  = lit "Tokens - Total: 162, In: 127, Out: 35".
Proof. reflexivity. Qed.
